(** * Mount-plan resolution of [scripts/setup.py]

    A shallow embedding of the network-storage part of the node setup
    script: [prepare_network_mounts], [setup_network_storage],
    [mount_fstab] (its per-path loop) and [setup_nfs_exports], together
    with the properties of the mount catalog, the locality partition, the
    fstab rendering and the NFS export plan.

    Conventions of the embedding:
    - a Python [dict] is an insertion-ordered association list with unique
      keys ([PyDict]): assigning to a present key keeps its position;
    - a value that the script uses as a path is either a [pathlib.Path]
      object or a [str]; the two never compare equal in Python, even when
      they print alike, so the distinction is kept ([pathval]);
    - exceptions are values ([exn]); code that writes files threads a
      [World];
    - the polling loop of [mount_fstab] is an interaction tree.
    [log.info] calls are left out except in the polling loop. *)

From ITree Require Import ITree ITreeFacts Events.State Events.StateFacts.
From Paco Require Import paco.
From Stdlib Require Import String Ascii List Bool Arith Lia Permutation.
Import ListNotations.
Set Default Proof Using "Type".
Local Open Scope string_scope.
Local Open Scope list_scope.

(** ** Python dictionaries *)

(** Keys of a dictionary: a type with the equality Python uses for
    hashing and lookup. *)
Class PyKey (K : Type) := {
  key_eqb : K -> K -> bool;
  key_eqb_spec : forall a b, key_eqb a b = true <-> a = b
}.

#[global] Instance string_PyKey : PyKey string :=
  {| key_eqb := String.eqb; key_eqb_spec := String.eqb_eq |}.

Module PyDict.

Definition dict (K V : Type) : Type := list (K * V).

Section Ops.
Context {K V : Type} `{PyKey K}.

Definition keys (d : dict K V) : list K := map fst d.
Definition values (d : dict K V) : list V := map snd d.
Definition items (d : dict K V) : list (K * V) := d.

(** [d.get(k)]: [None] when the key is absent. *)
Fixpoint get (k : K) (d : dict K V) : option V :=
  match d with
  | [] => None
  | (k', v) :: d' => if key_eqb k k' then Some v else get k d'
  end.

(** [d[k] = v]: a present key keeps its place, a new one goes last. *)
Fixpoint set (k : K) (v : V) (d : dict K V) : dict K V :=
  match d with
  | [] => [(k, v)]
  | (k', v') :: d' =>
      if key_eqb k k' then (k', v) :: d' else (k', v') :: set k v d'
  end.

(** [d.update(e)], [e] read in its iteration order. *)
Definition update (d : dict K V) (e : list (K * V)) : dict K V :=
  fold_left (fun acc kv => set (fst kv) (snd kv) acc) e d.

(** [dict(pairs)] and the dict comprehension [{k: v for ...}]. *)
Definition of_items (l : list (K * V)) : dict K V := update [] l.

(** The value a sequence of pairs gives a key: the last one listed. *)
Definition last_value (k : K) (l : list (K * V)) : option V :=
  get k (rev l).

Definition wf (d : dict K V) : Prop := NoDup (keys d).

End Ops.

End PyDict.

(** ** Data model *)

(** A path-valued field holds a [pathlib.Path] (the entries of [dirs]) or
    a [str] (whatever the YAML configuration supplies). *)
Inductive pathval : Type :=
| PPath (s : string)
| PStr (s : string).

(** [str(v)], which is also what [format] and f-strings print. *)
Definition str (v : pathval) : string :=
  match v with PPath s => s | PStr s => s end.

(** Python equality on these values: a [Path] never equals a [str]. *)
Definition pathval_eqb (a b : pathval) : bool :=
  match a, b with
  | PPath s, PPath t => String.eqb s t
  | PStr s, PStr t => String.eqb s t
  | _, _ => false
  end.

Lemma pathval_eqb_eq (a b : pathval) : pathval_eqb a b = true <-> a = b.
Proof.
  destruct a as [s|s], b as [t|t]; simpl;
    rewrite ?String.eqb_eq; split; congruence.
Qed.

#[global] Instance pathval_PyKey : PyKey pathval :=
  {| key_eqb := pathval_eqb; key_eqb_spec := pathval_eqb_eq |}.

(** A [pathlib.Path] used as a dictionary key, identified by its text. *)
Definition Path : Type := string.

(** One mount definition: the [CONTROL_NFS] template, or an entry of a
    [network_storage] list. [local_mount] is the one field the script reads
    by subscript, so its absence is represented; [mount_options] may be
    [None]. *)
Record Mount : Type := {
  server_ip : string;
  remote_mount : pathval;
  local_mount : option pathval;
  fs_type : string;
  mount_options : option string
}.

Module InstanceDef.
(** An entry of [cfg.instance_defs], reduced to the field read here. *)
Record t : Type := { network_storage : list Mount }.
End InstanceDef.

Record Config : Type := {
  cluster_name : string;
  hostname : string;
  instance_type : string;
  network_storage : list Mount;
  login_network_storage : list Mount;
  instance_defs : PyDict.dict string InstanceDef.t
}.

(** ** Exceptions *)

Inductive exn : Type :=
| KeyError (key : string).

Definition result (A : Type) : Type := (exn + A)%type.

Definition raise {A} (e : exn) : result A := inl e.

Definition rbind {A B} (r : result A) (k : A -> result B) : result B :=
  match r with
  | inl e => inl e
  | inr a => k a
  end.

Notation "'let*' x ':=' r 'in' k" := (rbind r (fun x => k))
  (at level 10, x pattern, r at level 100, k at level 200, only parsing).

(** [d[k]] *)
Definition getitem {V} (k : string) (d : PyDict.dict string V) : result V :=
  match PyDict.get k d with
  | Some v => inr v
  | None => raise (KeyError k)
  end.

(** ** Strings *)

(** [s.split(sep)] for a one-character separator. *)
Fixpoint split (sep : ascii) (s : string) : list string :=
  match s with
  | EmptyString => [EmptyString]
  | String c s' =>
      if Ascii.eqb c sep then EmptyString :: split sep s'
      else match split sep s' with
           | [] => [String c EmptyString]
           | hd :: tl => String c hd :: tl
           end
  end.

(** [sep.join(l)] *)
Definition join (sep : string) (l : list string) : string :=
  String.concat sep l.

(** [x in l] for a list of strings. *)
Definition contains (x : string) (l : list string) : bool :=
  existsb (String.eqb x) l.

Definition nl : string := String "010"%char EmptyString.

(** ** The node: files, the global [mounts], collaborator calls *)

(** Calls the script hands to its collaborators, in order. *)
Inductive call : Type :=
| Mkdirp (path : string)          (* [Path(path).mkdirp()] *)
| Run (cmd : string).             (* [util.run(cmd)] *)

Record World : Type := {
  etc_fstab : string;               (* /etc/fstab *)
  etc_exports : list string;        (* /etc/exports, line by line *)
  cluster_exports : option string;  (* /etc/exports.d/cluster.exports *)
  global_mounts : PyDict.dict Path Mount;  (* the module-level [mounts] *)
  calls : list call
}.

(** Stateful code that may raise: the exception, if any, and the node as
    it is left. *)
Definition M (A : Type) : Type := World -> result A * World.

Definition ret {A} (a : A) : M A := fun w => (inr a, w).

Definition bind {A B} (m : M A) (k : A -> M B) : M B :=
  fun w =>
    match m w with
    | (inl e, w') => (inl e, w')
    | (inr a, w') => k a w'
    end.

Definition lift {A} (r : result A) : M A := fun w => (r, w).

Notation "'let!' x ':=' m 'in' k" := (bind m (fun x => k))
  (at level 10, x pattern, m at level 100, k at level 200, only parsing).

Definition for_each {A} (l : list A) (body : A -> M unit) : M unit :=
  fold_right (fun a rest => let! _ := body a in rest) (ret tt) l.

Definition mkdirp (path : string) : M unit :=
  fun w =>
    (inr tt,
     {| etc_fstab := etc_fstab w; etc_exports := etc_exports w;
        cluster_exports := cluster_exports w;
        global_mounts := global_mounts w;
        calls := calls w ++ [Mkdirp path] |}).

(** A command whose effect on the modelled files is nil. *)
Definition run (cmd : string) : M unit :=
  fun w =>
    (inr tt,
     {| etc_fstab := etc_fstab w; etc_exports := etc_exports w;
        cluster_exports := cluster_exports w;
        global_mounts := global_mounts w;
        calls := calls w ++ [Run cmd] |}).

(** [global mounts; mounts = d] *)
Definition set_mounts (d : PyDict.dict Path Mount) : M unit :=
  fun w =>
    (inr tt,
     {| etc_fstab := etc_fstab w; etc_exports := etc_exports w;
        cluster_exports := cluster_exports w;
        global_mounts := d;
        calls := calls w |}).

(** [f.write(s)] on /etc/fstab opened with mode ['a']. *)
Definition fstab_write (s : string) : M unit :=
  fun w =>
    (inr tt,
     {| etc_fstab := etc_fstab w ++ s; etc_exports := etc_exports w;
        cluster_exports := cluster_exports w;
        global_mounts := global_mounts w;
        calls := calls w |}).

(** [open('w')] on the export fragment: the file exists and is empty. *)
Definition fragment_open_w : M unit :=
  fun w =>
    (inr tt,
     {| etc_fstab := etc_fstab w; etc_exports := etc_exports w;
        cluster_exports := Some "";
        global_mounts := global_mounts w;
        calls := calls w |}).

(** [f.write(s)] on the export fragment. *)
Definition fragment_write (s : string) : M unit :=
  fun w =>
    (inr tt,
     {| etc_fstab := etc_fstab w; etc_exports := etc_exports w;
        cluster_exports :=
          Some (match cluster_exports w with Some c => c | None => "" end
                ++ s)%string;
        global_mounts := global_mounts w;
        calls := calls w |}).

(** ** Catalog building: [prepare_network_mounts] *)

Section Setup.

(** The configuration read from the instance metadata. *)
Variable cfg : Config.

(** [Path(s).resolve()], which depends on the file system of the node. *)
Variable resolve : string -> Path.

(** [util.get_pid], from [util.py]: the partition id in a node name. *)
Variable get_pid : string -> string.

Definition CONTROL_MACHINE : string := cluster_name cfg ++ "-controller".

Definition dirs_home : Path := "/home".
Definition dirs_apps : Path := "/apps".
Definition dirs_apps_sec : Path := "/mnt/disks/sec/apps".

Definition default_mounts : list Path := [dirs_home; dirs_apps; dirs_apps_sec].

Definition CONTROL_NFS : Mount := {|
  server_ip := CONTROL_MACHINE;
  remote_mount := PStr "none";
  local_mount := Some (PStr "none");
  fs_type := "nfs";
  mount_options := Some "defaults,hard,intr"
|}.

(** [util.Config(base, local_mount=path, remote_mount=path)] *)
Definition Config_with (base : Mount) (path : Path) : Mount := {|
  server_ip := server_ip base;
  remote_mount := PPath path;
  local_mount := Some (PPath path);
  fs_type := fs_type base;
  mount_options := mount_options base
|}.

(** The [mounts] dictionary as first built, from [default_mounts]. *)
Definition seeded_mounts : PyDict.dict Path Mount :=
  PyDict.of_items
    (map (fun path => (path, Config_with CONTROL_NFS path)) default_mounts).

(** The pairs of the comprehension in [listtodict]; [d['local_mount']]
    raises on the first record without the field. *)
Fixpoint listtodict_items (mountlist : list Mount)
  : result (list (Path * Mount)) :=
  match mountlist with
  | [] => inr []
  | d :: rest =>
      match local_mount d with
      | None => raise (KeyError "local_mount")
      | Some lm =>
          let* tl := listtodict_items rest in
          inr ((resolve (str lm), d) :: tl)
      end
  end.

Definition listtodict (mountlist : list Mount)
  : result (PyDict.dict Path Mount) :=
  let* l := listtodict_items mountlist in
  inr (PyDict.of_items l).

(** [mounts] after the three layers, just before it is partitioned. *)
Definition resolved_mounts (hostname instance_type : string)
  : result (PyDict.dict Path Mount) :=
  let mounts := seeded_mounts in
  let* g := listtodict (network_storage cfg) in
  let mounts := PyDict.update mounts (PyDict.items g) in
  if instance_type =? "compute" then
    let pid := get_pid hostname in
    let* def := getitem pid (instance_defs cfg) in
    let* r := listtodict (InstanceDef.network_storage def) in
    inr (PyDict.update mounts (PyDict.items r))
  else
    let* r := listtodict (login_network_storage cfg) in
    inr (PyDict.update mounts (PyDict.items r)).

Definition internal_mount (mount : Path * Mount) : bool :=
  server_ip (snd mount) =? CONTROL_MACHINE.

(** [reduce(lambda acc, el: acc[pred(el)].append(el) or acc, coll,
    ([], []))]: index 0 collects the elements where [pred] is false. *)
Definition partition {A} (pred : A -> bool) (coll : list A)
  : list A * list A :=
  fold_left
    (fun acc el =>
       if pred el then (fst acc, snd acc ++ [el])
       else (fst acc ++ [el], snd acc))
    coll ([], []).

(** [tuple(map(dict, partition(internal_mount, mounts.items())))] *)
Definition locality (mounts : PyDict.dict Path Mount)
  : PyDict.dict Path Mount * PyDict.dict Path Mount :=
  let p := partition internal_mount (PyDict.items mounts) in
  (PyDict.of_items (fst p), PyDict.of_items (snd p)).

(** Returns [(external_mounts, internal_mounts)]. *)
Definition prepare_network_mounts (hostname instance_type : string)
  : result (PyDict.dict Path Mount * PyDict.dict Path Mount) :=
  let* mounts := resolved_mounts hostname instance_type in
  inr (locality mounts).

(** ** Mount table: [setup_network_storage] *)

(** [mount.mount_options.split(',') if mount.mount_options else []] *)
Definition given_options (mount : Mount) : list string :=
  match mount_options mount with
  | Some s => if s =? "" then [] else split "," s
  | None => []
  end.

(** The same list once the markers have been added. *)
Definition entry_options (mount : Mount) : list string :=
  let mount_options := given_options mount in
  let mount_options :=
    if match mount_options with [] => true | _ => false end
       || negb (contains "_netdev" mount_options)
    then mount_options ++ ["_netdev"] else mount_options in
  if fs_type mount =? "gcsfuse" then
    if negb (contains "nonempty" mount_options)
    then mount_options ++ ["nonempty"] else mount_options
  else mount_options.

(** The line appended to [fstab_entries] for one item of [mounts]. *)
Definition fstab_entry (local_mount : Path) (mount : Mount) : string :=
  if fs_type mount =? "gcsfuse" then
    str (remote_mount mount) ++ "   " ++ local_mount ++ "     "
    ++ fs_type mount ++ "     " ++ join "," (entry_options mount)
    ++ "     0 0"
  else
    server_ip mount ++ ":" ++ resolve (str (remote_mount mount)) ++ "    "
    ++ local_mount ++ "     " ++ fs_type mount ++ "      "
    ++ join "," (entry_options mount) ++ "  0 0".

(** [continue] in the loop: a controller mount on the controller. *)
Definition skipped (mount : Mount) : bool :=
  (server_ip mount =? CONTROL_MACHINE) && (instance_type cfg =? "controller").

(** The loop over [mounts.items()]. *)
Fixpoint fstab_loop (its : list (Path * Mount)) (fstab_entries : list string)
  : M (list string) :=
  match its with
  | [] => ret fstab_entries
  | (local_mount, mount) :: rest =>
      if skipped mount then fstab_loop rest fstab_entries
      else
        let! _ := mkdirp local_mount in
        fstab_loop rest (fstab_entries ++ [fstab_entry local_mount mount])
  end.

(** The [with open('/etc/fstab', 'a')] block. *)
Definition write_fstab (fstab_entries : list string) : M unit :=
  let! _ := fstab_write nl in
  for_each fstab_entries
    (fun entry => let! _ := fstab_write entry in fstab_write nl).

Definition setup_network_storage : M unit :=
  let! (ext_mounts, int_mounts) :=
    lift (prepare_network_mounts (hostname cfg) (instance_type cfg)) in
  let mounts :=
    if negb (instance_type cfg =? "controller")
    then PyDict.update ext_mounts (PyDict.items int_mounts)
    else ext_mounts in
  let! _ := set_mounts mounts in
  let! fstab_entries := fstab_loop (PyDict.items mounts) [] in
  let! _ := for_each (PyDict.keys mounts) mkdirp in
  write_fstab fstab_entries.

(** ** Export table: [setup_nfs_exports] *)

(** Which lines of /etc/exports the command [sed -i '\#path#d'] deletes:
    those in which sed finds a match of [path], read as a pattern. *)
Variable sed_selects : string -> string -> bool.

Definition sed_delete (path : string) : M unit :=
  fun w =>
    (inr tt,
     {| etc_fstab := etc_fstab w;
        etc_exports :=
          filter (fun line => negb (sed_selects path line)) (etc_exports w);
        cluster_exports := cluster_exports w;
        global_mounts := global_mounts w;
        calls := calls w ++ [Run ("sed -i '\#" ++ path ++ "#d' /etc/exports")]
     |}).

(** [{m.remote_mount: m for m in d.values()}] *)
Definition by_remote_mount (d : PyDict.dict Path Mount)
  : PyDict.dict pathval Mount :=
  PyDict.of_items (map (fun m => (remote_mount m, m)) (PyDict.values d)).

(** The loop over [cfg.instance_defs.items()]. *)
Fixpoint partition_loop (defs : list (string * InstanceDef.t))
    (con_mounts : PyDict.dict pathval Mount)
  : result (PyDict.dict pathval Mount) :=
  match defs with
  | [] => inr con_mounts
  | (pid, _) :: rest =>
      let* (_, part_mounts) :=
        prepare_network_mounts (pid ++ "-n") "compute" in
      let part_mounts := by_remote_mount part_mounts in
      partition_loop rest
        (PyDict.update con_mounts (PyDict.items part_mounts))
  end.

(** [con_mounts] once every partition has been merged in. *)
Definition export_mounts : result (PyDict.dict pathval Mount) :=
  let* (_, con_mounts) :=
    prepare_network_mounts (hostname cfg) (instance_type cfg) in
  let con_mounts := by_remote_mount con_mounts in
  partition_loop (PyDict.items (instance_defs cfg)) con_mounts.

Definition export_line (path : pathval) : string :=
  str path ++ "  *(rw,no_subtree_check,no_root_squash)".

(** The loop over the keys of [con_mounts]. *)
Fixpoint exports_loop (paths : list pathval) (exports : list string)
  : M (list string) :=
  match paths with
  | [] => ret exports
  | path :: rest =>
      let! _ := mkdirp (str path) in
      let! _ := sed_delete (str path) in
      exports_loop rest (exports ++ [export_line path])
  end.

(** From [exports = []] to [exportfs -a], for a given [con_mounts]. *)
Definition write_exports (con_mounts : PyDict.dict pathval Mount) : M unit :=
  let! exports := exports_loop (PyDict.keys con_mounts) [] in
  let! _ := mkdirp "/etc/exports.d" in
  let! _ := fragment_open_w in
  let! _ := fragment_write nl in
  let! _ := fragment_write (join nl exports) in
  run "exportfs -a".

Definition setup_nfs_exports : M unit :=
  let! con_mounts := lift export_mounts in
  write_exports con_mounts.

End Setup.

(** ** Waiting for the mounts: the loop of [mount_fstab] *)

Module Waiter.
Import ITreeNotations.
Local Open Scope itree_scope.

(** What the loop asks of its environment. [util.run] comes from
    [util.py]; it runs the command, sleeps [wait] seconds and returns
    the completed process, which the loop ignores. *)
Variant waitE : Type -> Type :=
| IsMount (path : string) : waitE bool            (* [os.path.ismount] *)
| LogInfo (msg : string) : waitE unit             (* [log.info] *)
| UtilRun (cmd : string) (wait : nat) : waitE unit.

(** [f"Waiting for {path} to be mounted"] and [f"mount {path}"] *)
Definition waiting_for (path : string) : string :=
  "Waiting for " ++ path ++ " to be mounted".

Definition mount_command (path : string) : string := "mount " ++ path.

(** One turn of [while not os.path.ismount(path)]: [inr] leaves the
    loop, [inl] goes round again. *)
Definition mount_path_body (path : string) (_ : unit)
  : itree waitE (unit + unit) :=
  mounted <- ITree.trigger (IsMount path) ;;
  if mounted : bool then Ret (inr tt)
  else
    ITree.trigger (LogInfo (waiting_for path)) ;;
    ITree.trigger (UtilRun (mount_command path) 5) ;;
    Ret (inl tt).

Definition mount_path (path : string) : itree waitE unit :=
  ITree.iter (mount_path_body path) tt.

(** A node seen from the loop: how often it was polled, and what the
    loop did to it. *)
Inductive event : Type :=
| Polled (path : string) (answer : bool)
| Logged (msg : string)
| Ran (cmd : string) (wait : nat).

Record Node : Type := { polls : nat; journal : list event }.

(** The environment: [mounted k] is what the poll number [k] observes. *)
Definition h_wait (mounted : nat -> bool)
  : waitE ~> Monads.stateT Node (itree void1) :=
  fun _ e s =>
    match e with
    | IsMount path =>
        Ret ({| polls := S (polls s);
                journal := journal s ++ [Polled path (mounted (polls s))] |},
             mounted (polls s))
    | LogInfo msg =>
        Ret ({| polls := polls s; journal := journal s ++ [Logged msg] |}, tt)
    | UtilRun cmd wait =>
        Ret ({| polls := polls s; journal := journal s ++ [Ran cmd wait] |},
             tt)
    end.

(** What one unsuccessful turn leaves in the journal. *)
Definition attempt (path : string) : list event :=
  [Polled path false; Logged (waiting_for path);
   Ran (mount_command path) 5].

Fixpoint attempts (n : nat) (path : string) : list event :=
  match n with
  | 0 => []
  | S n' => attempt path ++ attempts n' path
  end.

(** The runs in which every poll answers [False]: such a run of [t] is
    infinite when it never reaches a [Ret]. *)
Inductive unmountedF (r : itree waitE unit -> Prop)
  : itree' waitE unit -> Prop :=
| um_tau t : r t -> unmountedF r (TauF t)
| um_poll path k : r (k false) -> unmountedF r (VisF (IsMount path) k)
| um_log msg k : r (k tt) -> unmountedF r (VisF (LogInfo msg) k)
| um_run cmd wait k : r (k tt) -> unmountedF r (VisF (UtilRun cmd wait) k).

Definition unmounted_ (r : itree waitE unit -> Prop) (t : itree waitE unit)
  : Prop :=
  unmountedF r (observe t).

(** [t] keeps going for ever as long as no poll sees the mount. *)
Definition waits_forever (t : itree waitE unit) : Prop :=
  paco1 unmounted_ bot1 t.

End Waiter.

(** * Properties *)

(** ** Dictionaries *)

Lemma key_eqb_refl {K} `{PyKey K} (k : K) : key_eqb k k = true.
Proof. now apply key_eqb_spec. Qed.

Lemma key_eqb_neq {K} `{PyKey K} (a b : K) : key_eqb a b = false <-> a <> b.
Proof.
  split.
  - intros E F. apply key_eqb_spec in F. congruence.
  - intros N. destruct (key_eqb a b) eqn:E; [|reflexivity].
    apply key_eqb_spec in E. contradiction.
Qed.

Lemma key_eq_dec {K} `{PyKey K} (a b : K) : {a = b} + {a <> b}.
Proof.
  destruct (key_eqb a b) eqn:E.
  - left. now apply key_eqb_spec.
  - right. now apply key_eqb_neq.
Defined.

Module PyDictFacts.
Import PyDict.

Section Facts.
Context {K V : Type} `{PyKey K}.

Lemma get_set (k k' : K) (v : V) (d : dict K V) :
  get k (set k' v d) = if key_eqb k k' then Some v else get k d.
Proof.
  induction d as [|[k0 v0] d IH]; simpl.
  - reflexivity.
  - destruct (key_eqb k' k0) eqn:E0; simpl.
    + apply key_eqb_spec in E0. subst k0.
      destruct (key_eqb k k'); reflexivity.
    + rewrite IH. destruct (key_eqb k k0) eqn:E1; [|reflexivity].
      apply key_eqb_spec in E1. subst k0.
      destruct (key_eqb k k') eqn:E2; [|reflexivity].
      apply key_eqb_spec in E2. subst k'.
      rewrite key_eqb_refl in E0. discriminate.
Qed.

Lemma keys_set (k : K) (v : V) (d : dict K V) :
  keys (set k v d) =
  match get k d with Some _ => keys d | None => keys d ++ [k] end.
Proof.
  induction d as [|[k0 v0] d IH]; simpl; [reflexivity|].
  destruct (key_eqb k k0) eqn:E0; simpl; [reflexivity|].
  rewrite IH. destruct (get k d); reflexivity.
Qed.

Lemma get_none_iff (k : K) (d : dict K V) :
  get k d = None <-> ~ In k (keys d).
Proof.
  induction d as [|[k0 v0] d IH]; simpl; [tauto|].
  destruct (key_eqb k k0) eqn:E.
  - apply key_eqb_spec in E. subst. split; [discriminate|tauto].
  - apply key_eqb_neq in E. rewrite IH. intuition congruence.
Qed.

Lemma get_some_in (k : K) (v : V) (d : dict K V) :
  get k d = Some v -> In (k, v) d.
Proof.
  induction d as [|[k0 v0] d IH]; simpl; [discriminate|].
  destruct (key_eqb k k0) eqn:E.
  - apply key_eqb_spec in E. intros [= ->]. subst. now left.
  - intros G. right. auto.
Qed.

Lemma in_keys_get (k : K) (d : dict K V) :
  In k (keys d) <-> exists v, get k d = Some v.
Proof.
  destruct (get k d) as [v|] eqn:G.
  - split; [eauto|]. intros _. apply get_some_in in G.
    change k with (fst (k, v)). now apply in_map.
  - apply get_none_iff in G. split; [tauto|]. intros [v Hv]. discriminate.
Qed.

Lemma in_keys_set (k k' : K) (v : V) (d : dict K V) :
  In k (keys (set k' v d)) <-> k = k' \/ In k (keys d).
Proof.
  rewrite keys_set. destruct (get k' d) as [v'|] eqn:G.
  - split; [auto|]. intros [->|J]; [|assumption].
    apply in_keys_get. eauto.
  - rewrite in_app_iff. simpl. split.
    + intros [J|[J|[]]]; auto.
    + intros [->|J]; auto.
Qed.

Lemma wf_set (k : K) (v : V) (d : dict K V) : wf d -> wf (set k v d).
Proof.
  unfold wf. intros W. rewrite keys_set.
  destruct (get k d) as [v'|] eqn:G; [assumption|].
  apply get_none_iff in G.
  apply NoDup_app; [assumption|repeat constructor; simpl; tauto|].
  intros x Hx [<-|[]]. contradiction.
Qed.

Lemma get_app (k : K) (d e : dict K V) :
  get k (d ++ e) = match get k d with Some v => Some v | None => get k e end.
Proof.
  induction d as [|[k0 v0] d IH]; simpl; [reflexivity|].
  destruct (key_eqb k k0); [reflexivity|apply IH].
Qed.

Lemma get_update (k : K) (d : dict K V) (e : list (K * V)) :
  get k (update d e) =
  match last_value k e with Some v => Some v | None => get k d end.
Proof.
  unfold update, last_value. revert d.
  induction e as [|[k0 v0] e IH]; intros d; simpl.
  - reflexivity.
  - rewrite IH, get_app, get_set. simpl.
    destruct (get k (rev e)); [reflexivity|].
    destruct (key_eqb k k0); reflexivity.
Qed.

Lemma in_keys_update (k : K) (d : dict K V) (e : list (K * V)) :
  In k (keys (update d e)) <-> In k (keys d) \/ In k (map fst e).
Proof.
  unfold update. revert d.
  induction e as [|[k0 v0] e IH]; intros d; simpl.
  - tauto.
  - rewrite IH, in_keys_set. intuition congruence.
Qed.

Lemma wf_update (d : dict K V) (e : list (K * V)) :
  wf d -> wf (update d e).
Proof.
  unfold update. revert d.
  induction e as [|[k0 v0] e IH]; intros d W; simpl; [assumption|].
  apply IH, wf_set, W.
Qed.

Lemma wf_of_items (l : list (K * V)) : wf (of_items l).
Proof. apply wf_update. constructor. Qed.

Lemma in_get (k : K) (v : V) (d : dict K V) :
  wf d -> In (k, v) d -> get k d = Some v.
Proof.
  unfold wf. induction d as [|[k0 v0] d IH]; simpl; [tauto|].
  intros W [E|I].
  - inversion E; subst. now rewrite key_eqb_refl.
  - inversion W as [|? ? N W']; subst.
    destruct (key_eqb k k0) eqn:E.
    + apply key_eqb_spec in E. subst k0. exfalso. apply N.
      change k with (fst (k, v)). now apply in_map.
    + auto.
Qed.

Lemma set_fresh (k : K) (v : V) (d : dict K V) :
  get k d = None -> set k v d = d ++ [(k, v)].
Proof.
  induction d as [|[k0 v0] d IH]; simpl; [reflexivity|].
  destruct (key_eqb k k0); [discriminate|].
  intros G. now rewrite IH.
Qed.

Lemma update_fresh (d : dict K V) (l : list (K * V)) :
  NoDup (keys d ++ map fst l) -> update d l = d ++ l.
Proof.
  unfold update. revert d.
  induction l as [|[k v] l IH]; intros d N; simpl.
  - now rewrite app_nil_r.
  - rewrite set_fresh.
    + rewrite IH.
      * now rewrite <- app_assoc.
      * unfold keys. rewrite map_app, <- app_assoc. exact N.
    + apply get_none_iff. simpl in N.
      apply NoDup_remove_2 in N. intros I. apply N, in_or_app. now left.
Qed.

Lemma of_items_wf (l : list (K * V)) :
  NoDup (map fst l) -> of_items l = l.
Proof. intros N. unfold of_items. now rewrite update_fresh. Qed.

Lemma last_value_wf (k : K) (d : dict K V) :
  wf d -> last_value k d = get k d.
Proof.
  unfold last_value. intros W.
  assert (Wr : wf (rev d)).
  { unfold wf, keys. rewrite map_rev. now apply NoDup_rev. }
  destruct (get k d) as [v|] eqn:G.
  - apply in_get; [exact Wr|]. rewrite <- in_rev. now apply get_some_in.
  - apply get_none_iff. apply get_none_iff in G.
    unfold keys in *. rewrite map_rev, <- in_rev. exact G.
Qed.

Lemma get_of_items (k : K) (l : list (K * V)) :
  get k (of_items l) = last_value k l.
Proof.
  unfold of_items. rewrite get_update. simpl.
  now destruct (last_value k l).
Qed.

Lemma in_keys_of_items (k : K) (l : list (K * V)) :
  In k (keys (of_items l)) <-> In k (map fst l).
Proof. unfold of_items. rewrite in_keys_update. simpl. tauto. Qed.

Lemma wf_filter (p : K * V -> bool) (d : dict K V) :
  wf d -> wf (filter p d).
Proof.
  unfold wf, keys. induction d as [|[k0 v0] d IH]; simpl; [auto|].
  intros N. inversion N as [|? ? N0 N1]; subst.
  destruct (p (k0, v0)); simpl; [|auto].
  constructor; [|auto]. intros I. apply N0.
  apply in_map_iff in I. destruct I as [[k1 v1] [E I]].
  apply filter_In in I. apply in_map_iff. exists (k1, v1). tauto.
Qed.

Lemma get_filter (p : K * V -> bool) (k : K) (d : dict K V) :
  wf d ->
  get k (filter p d) =
  match get k d with
  | Some v => if p (k, v) then Some v else None
  | None => None
  end.
Proof.
  unfold wf. induction d as [|[k0 v0] d IH]; simpl; [reflexivity|].
  intros N. inversion N as [|? ? N0 N1]; subst.
  destruct (key_eqb k k0) eqn:E.
  - apply key_eqb_spec in E. subst k0.
    destruct (p (k, v0)); simpl.
    + now rewrite key_eqb_refl.
    + rewrite IH by assumption.
      apply get_none_iff in N0. now rewrite N0.
  - destruct (p (k0, v0)); simpl; [rewrite E|]; auto.
Qed.

End Facts.

End PyDictFacts.

(** ** The reduce-based two-way split *)

Lemma partition_acc {A} (pred : A -> bool) (coll no yes : list A) :
  fold_left
    (fun acc el =>
       if pred el then (fst acc, snd acc ++ [el])
       else (fst acc ++ [el], snd acc))
    coll (no, yes)
  = (no ++ filter (fun el => negb (pred el)) coll, yes ++ filter pred coll).
Proof.
  revert no yes. induction coll as [|el coll IH]; intros no yes; simpl.
  - now rewrite !app_nil_r.
  - destruct (pred el); simpl; rewrite IH; simpl;
      now rewrite <- app_assoc.
Qed.

Lemma partition_filter {A} (pred : A -> bool) (coll : list A) :
  partition pred coll
  = (filter (fun el => negb (pred el)) coll, filter pred coll).
Proof. unfold partition. now rewrite partition_acc. Qed.

(** ** The locality split and the seeded defaults *)

Section Locality.

Import PyDict PyDictFacts.

Variable cfg : Config.

Lemma locality_filter (mounts : dict Path Mount) :
  wf mounts ->
  locality cfg mounts
  = (filter (fun el => negb (internal_mount cfg el)) mounts,
     filter (internal_mount cfg) mounts).
Proof.
  intros W. unfold locality. rewrite partition_filter. simpl.
  now rewrite !of_items_wf by (apply (wf_filter _ _ W)).
Qed.

Lemma get_internal (mounts : dict Path Mount) (k : Path) (m : Mount) :
  wf mounts ->
  get k (filter (internal_mount cfg) mounts) = Some m <->
  get k mounts = Some m /\ server_ip m = CONTROL_MACHINE cfg.
Proof.
  intros W. rewrite get_filter by exact W.
  destruct (get k mounts) as [v|]; [|split; [discriminate|tauto]].
  unfold internal_mount. simpl.
  destruct (String.eqb_spec (server_ip v) (CONTROL_MACHINE cfg)).
  - split; [intros [= ->]; auto|tauto].
  - split; [discriminate|]. intros [[= ->] E]. contradiction.
Qed.

Lemma get_external (mounts : dict Path Mount) (k : Path) (m : Mount) :
  wf mounts ->
  get k (filter (fun el => negb (internal_mount cfg el)) mounts) = Some m
  <-> get k mounts = Some m /\ server_ip m <> CONTROL_MACHINE cfg.
Proof.
  intros W. rewrite get_filter by exact W.
  destruct (get k mounts) as [v|]; [|split; [discriminate|tauto]].
  unfold internal_mount. simpl.
  destruct (String.eqb_spec (server_ip v) (CONTROL_MACHINE cfg)); simpl.
  - split; [discriminate|]. intros [[= ->] E]. contradiction.
  - split; [intros [= ->]; auto|tauto].
Qed.

(** C2. For a catalog (a dictionary, so with unique keys) the locality
    split returns [(external, internal)]: every key of the catalog is a
    key of one of the two and no key is in both; [internal] holds exactly
    the records served by the controller, [external] exactly the others,
    each record as it is in the catalog. *)
Theorem locality_partitions_catalog (mounts : dict Path Mount) :
  wf mounts ->
  let ext := fst (locality cfg mounts) in
  let int := snd (locality cfg mounts) in
  (forall k, In k (keys mounts) <-> In k (keys ext) \/ In k (keys int))
  /\ (forall k, ~ (In k (keys ext) /\ In k (keys int)))
  /\ (forall k m,
         get k int = Some m <->
         get k mounts = Some m /\ server_ip m = CONTROL_MACHINE cfg)
  /\ (forall k m,
         get k ext = Some m <->
         get k mounts = Some m /\ server_ip m <> CONTROL_MACHINE cfg)
  /\ Permutation (items ext ++ items int) (items mounts).
Proof.
  intros W ext int. subst ext int. rewrite (locality_filter _ W). simpl.
  pose proof (fun k m => get_internal mounts k m W) as GI.
  pose proof (fun k m => get_external mounts k m W) as GE.
  split; [|split; [|split; [|split]]]; try assumption.
  - intros k. rewrite !in_keys_get. split.
    + intros [m G].
      destruct (String.eqb_spec (server_ip m) (CONTROL_MACHINE cfg)).
      * right. exists m. now apply GI.
      * left. exists m. now apply GE.
    + intros [[m G]|[m G]]; exists m; [apply GE in G|apply GI in G]; tauto.
  - intros k. rewrite !in_keys_get. intros [[m G] [m' G']].
    apply GE in G. apply GI in G'. destruct G as [G N], G' as [G' E].
    rewrite G in G'. inversion G'; subst. contradiction.
  - unfold items. clear. induction mounts as [|el l IH]; simpl; [constructor|].
    destruct (internal_mount cfg el); simpl.
    + apply Permutation_sym, Permutation_cons_app, Permutation_sym, IH.
    + now constructor.
Qed.

(** C10. Every default mount path is seeded with a record served by the
    controller whose remote_mount and local_mount are that same path,
    with fs_type nfs and options defaults,hard,intr; so the path such a
    record is exported under prints as the path it is mounted on. *)
Theorem default_mounts_seeded :
  Forall
    (fun path =>
       get path (seeded_mounts cfg)
       = Some {| server_ip := CONTROL_MACHINE cfg;
                 remote_mount := PPath path;
                 local_mount := Some (PPath path);
                 fs_type := "nfs";
                 mount_options := Some "defaults,hard,intr" |}
       /\ forall m, get path (seeded_mounts cfg) = Some m ->
                    str (remote_mount m) = path
                    /\ internal_mount cfg (path, m) = true)
    default_mounts.
Proof.
  repeat constructor; simpl in *;
    try (match goal with H : Some _ = Some _ |- _ => inversion H; subst end);
    simpl; try reflexivity; apply String.eqb_refl.
Qed.

End Locality.

(** ** The mount catalog *)

Section Catalog.

Import PyDict PyDictFacts.

Variable cfg : Config.
Variable resolve : string -> Path.
Variable get_pid : string -> string.

(** The key under which [listtodict] files a record. *)
Definition mount_key (d : Mount) : option Path :=
  option_map (fun lm => resolve (str lm)) (local_mount d).

Definition keyed (l : list Mount) : list (Path * Mount) :=
  flat_map
    (fun d => match mount_key d with Some k => [(k, d)] | None => [] end) l.

(** The record an override list holds for a key: when the list names
    the key more than once, the one listed last. *)
Definition source_record (k : Path) (src : list Mount) : option Mount :=
  find
    (fun d => match mount_key d with Some k' => k =? k' | None => false end)
    (rev src).

(** The role-specific override list: the list of the node's partition
    for a compute node, the login list for any other role. *)
Definition role_network_storage (hostname instance_type : string)
  : result (list Mount) :=
  if instance_type =? "compute" then
    let* def := getitem (get_pid hostname) (instance_defs cfg) in
    inr (InstanceDef.network_storage def)
  else inr (login_network_storage cfg).

Definition has_local_mount (d : Mount) : Prop := local_mount d <> None.

Lemma listtodict_items_ok (l : list Mount) :
  Forall has_local_mount l -> listtodict_items resolve l = inr (keyed l).
Proof.
  induction 1 as [|d l Hd Hl IH]; simpl; [reflexivity|].
  unfold mount_key. unfold has_local_mount in Hd.
  destruct (local_mount d) as [lm|]; [|contradiction].
  rewrite IH. reflexivity.
Qed.

Lemma listtodict_items_missing (l : list Mount) :
  Exists (fun d => local_mount d = None) l ->
  listtodict_items resolve l = inl (KeyError "local_mount").
Proof.
  induction l as [|d l IH]; intros E; simpl.
  - inversion E.
  - destruct (local_mount d) as [lm|] eqn:L; [|reflexivity].
    inversion E as [? ? Hd|? ? Hl]; subst; [congruence|].
    now rewrite IH.
Qed.

Lemma keyed_app (l1 l2 : list Mount) : keyed (l1 ++ l2) = keyed l1 ++ keyed l2.
Proof. apply flat_map_app. Qed.

Lemma keyed_rev (l : list Mount) : rev (keyed l) = keyed (rev l).
Proof.
  induction l as [|d l IH]; simpl; [reflexivity|].
  rewrite keyed_app, rev_app_distr, IH. f_equal. simpl.
  destruct (mount_key d); reflexivity.
Qed.

Lemma last_value_keyed (k : Path) (l : list Mount) :
  last_value k (keyed l) = source_record k l.
Proof.
  unfold last_value, source_record. rewrite keyed_rev.
  induction (rev l) as [|d l' IH]; simpl; [reflexivity|].
  destruct (mount_key d) as [k'|]; simpl; [|exact IH].
  destruct (k =? k')%string; [reflexivity|exact IH].
Qed.

Lemma in_keys_keyed (k : Path) (l : list Mount) :
  In k (map fst (keyed l)) <-> exists d, In d l /\ mount_key d = Some k.
Proof.
  unfold keyed. rewrite in_map_iff. split.
  - intros [[k' d] [E I]]. simpl in E. subst k'.
    apply in_flat_map in I. destruct I as [d' [I J]].
    destruct (mount_key d') as [k'|] eqn:M; simpl in J; [|contradiction].
    destruct J as [J|[]]. inversion J; subst. eauto.
  - intros [d [I M]]. exists (k, d). split; [reflexivity|].
    apply in_flat_map. exists d. rewrite M. simpl. auto.
Qed.

Lemma source_record_some (k : Path) (l : list Mount) :
  (exists d, source_record k l = Some d)
  <-> exists d, In d l /\ mount_key d = Some k.
Proof.
  rewrite <- last_value_keyed, <- in_keys_keyed.
  unfold last_value. rewrite <- in_keys_get.
  unfold keys. rewrite map_rev, <- in_rev. reflexivity.
Qed.

Lemma listtodict_ok (l : list Mount) :
  Forall has_local_mount l ->
  listtodict resolve l = inr (of_items (keyed l)).
Proof.
  intros F. unfold listtodict. now rewrite listtodict_items_ok.
Qed.

Lemma listtodict_missing (l : list Mount) :
  Exists (fun d => local_mount d = None) l ->
  listtodict resolve l = inl (KeyError "local_mount").
Proof.
  intros F. unfold listtodict. now rewrite listtodict_items_missing.
Qed.

Lemma listtodict_raises (l : list Mount) (e : exn) :
  listtodict resolve l = inl e -> e = KeyError "local_mount".
Proof.
  unfold listtodict.
  destruct (listtodict_items resolve l) as [e'|its] eqn:L;
    cbn [rbind]; [|discriminate].
  intros [= <-]. revert e' L.
  induction l as [|d l IH]; intros e' L; cbn [listtodict_items] in L.
  - discriminate L.
  - destruct (local_mount d) as [lm|].
    + destruct (listtodict_items resolve l) as [e2|its];
        cbn [rbind] in L; [|discriminate L].
      injection L as <-. now apply IH.
    + unfold raise in L. now injection L as <-.
Qed.

(** The three layers, when every record names its [local_mount]. *)
Lemma resolved_mounts_layers (hostname instance_type : string)
    (R : list Mount) :
  role_network_storage hostname instance_type = inr R ->
  Forall has_local_mount (network_storage cfg) ->
  Forall has_local_mount R ->
  resolved_mounts cfg resolve get_pid hostname instance_type
  = inr (update (update (seeded_mounts cfg)
                   (of_items (keyed (network_storage cfg))))
           (of_items (keyed R))).
Proof.
  unfold role_network_storage, resolved_mounts. intros HR FG FR.
  rewrite (listtodict_ok _ FG). simpl.
  destruct (instance_type =? "compute")%string.
  - destruct (getitem (get_pid hostname) (instance_defs cfg)) as [e|def];
      simpl in *; [discriminate|].
    inversion HR; subst. now rewrite (listtodict_ok _ FR).
  - inversion HR; subst. now rewrite (listtodict_ok _ FR).
Qed.

Lemma wf_seeded_mounts : wf (seeded_mounts cfg).
Proof. apply wf_of_items. Qed.

Lemma resolved_mounts_wf (hostname instance_type : string)
    (mounts : dict Path Mount) :
  resolved_mounts cfg resolve get_pid hostname instance_type = inr mounts ->
  wf mounts.
Proof.
  unfold resolved_mounts.
  destruct (listtodict resolve (network_storage cfg)) as [e|g];
    simpl; [discriminate|].
  destruct (instance_type =? "compute")%string.
  - destruct (getitem (get_pid hostname) (instance_defs cfg)) as [e|def];
      simpl; [discriminate|].
    destruct (listtodict resolve (InstanceDef.network_storage def))
      as [e|r]; simpl; [discriminate|].
    intros [= <-]. apply wf_update, wf_update, wf_seeded_mounts.
  - destruct (listtodict resolve (login_network_storage cfg))
      as [e|r]; simpl; [discriminate|].
    intros [= <-]. apply wf_update, wf_update, wf_seeded_mounts.
Qed.

(** C1. With default mounts D, global overrides G and role-specific
    overrides R (the partition's list on a compute node, the login list
    otherwise), all naming their local_mount, the resolved catalog exists,
    its keys are exactly the keys of D, of G and of R taken together, and
    each key maps to the whole record of the highest layer that has it:
    R before G before D. *)
Theorem catalog_precedence (hostname instance_type : string)
    (R : list Mount) :
  role_network_storage hostname instance_type = inr R ->
  Forall has_local_mount (network_storage cfg) ->
  Forall has_local_mount R ->
  exists mounts,
    resolved_mounts cfg resolve get_pid hostname instance_type = inr mounts
    /\ (forall k,
           In k (keys mounts) <->
           In k (default_mounts)
           \/ (exists d, In d (network_storage cfg) /\ mount_key d = Some k)
           \/ (exists d, In d R /\ mount_key d = Some k))
    /\ (forall k,
           get k mounts =
           match source_record k R with
           | Some d => Some d
           | None =>
               match source_record k (network_storage cfg) with
               | Some d => Some d
               | None => get k (seeded_mounts cfg)
               end
           end).
Proof.
  intros HR FG FR. eexists. split.
  - apply resolved_mounts_layers; eassumption.
  - split; intros k.
    + rewrite !in_keys_update. unfold items.
      change (map fst (of_items (keyed R))) with (keys (of_items (keyed R))).
      change (map fst (of_items (keyed (network_storage cfg))))
        with (keys (of_items (keyed (network_storage cfg)))).
      rewrite !in_keys_of_items, !in_keys_keyed.
      unfold seeded_mounts. rewrite in_keys_of_items, map_map. simpl.
      tauto.
    + rewrite !get_update.
      rewrite !last_value_wf by apply wf_of_items.
      rewrite !get_of_items, !last_value_keyed. reflexivity.
Qed.

(** C7. When the global override list, or the role-specific list the node
    consults, holds a record without local_mount, mount resolution raises
    [KeyError('local_mount')]: no catalog and no split is returned, no
    default key is substituted, and [setup_network_storage] passes the
    exception on having written nothing. *)
Theorem missing_local_mount_aborts (host role : string)
    (R : list Mount) (w : World) :
  role_network_storage host role = inr R ->
  Exists (fun d => local_mount d = None) (network_storage cfg)
  \/ Exists (fun d => local_mount d = None) R ->
  resolved_mounts cfg resolve get_pid host role
  = inl (KeyError "local_mount")
  /\ prepare_network_mounts cfg resolve get_pid host role
     = inl (KeyError "local_mount")
  /\ (host = hostname cfg ->
      role = instance_type cfg ->
      setup_network_storage cfg resolve get_pid w
      = (inl (KeyError "local_mount"), w)).
Proof.
  intros HR Bad.
  assert (E : resolved_mounts cfg resolve get_pid host role
              = inl (KeyError "local_mount")).
  { unfold resolved_mounts.
    destruct (listtodict resolve (network_storage cfg)) as [e|g] eqn:LG.
    - apply listtodict_raises in LG. subst e. reflexivity.
    - destruct Bad as [B|B].
      + rewrite (listtodict_missing _ B) in LG. discriminate LG.
      + unfold role_network_storage in HR. cbn [rbind].
        destruct (role =? "compute")%string.
        * destruct (getitem (get_pid host) (instance_defs cfg))
            as [e|def]; cbn [rbind] in *; [discriminate HR|].
          injection HR as <-. now rewrite (listtodict_missing _ B).
        * injection HR as <-. now rewrite (listtodict_missing _ B). }
  split; [exact E|]. split.
  - unfold prepare_network_mounts. now rewrite E.
  - intros -> ->. unfold setup_network_storage, bind, lift,
      prepare_network_mounts. now rewrite E.
Qed.

End Catalog.

(** ** Strings and files *)

Lemma append_assoc (a b c : string) : ((a ++ b) ++ c = a ++ (b ++ c))%string.
Proof. induction a as [|x a IH]; simpl; [reflexivity|now rewrite IH]. Qed.

Lemma append_nil_r (a : string) : (a ++ "" = a)%string.
Proof. induction a as [|x a IH]; simpl; [reflexivity|now rewrite IH]. Qed.

Lemma prefix_append (a b : string) : String.prefix a (a ++ b) = true.
Proof.
  induction a as [|x a IH]; simpl.
  - now destruct b.
  - destruct (ascii_dec x x) as [_|N]; [exact IH|contradiction].
Qed.

(** The text of a list of lines, each closed by a newline. *)
Fixpoint lines_text (entries : list string) : string :=
  match entries with
  | [] => ""
  | entry :: rest => entry ++ nl ++ lines_text rest
  end.

(** The node with further collaborator calls recorded. *)
Definition logged (cs : list call) (w : World) : World :=
  {| etc_fstab := etc_fstab w; etc_exports := etc_exports w;
     cluster_exports := cluster_exports w;
     global_mounts := global_mounts w;
     calls := calls w ++ cs |}.

Lemma logged_nil (w : World) : logged [] w = w.
Proof. destruct w. unfold logged. simpl. now rewrite app_nil_r. Qed.

Lemma logged_logged (a b : list call) (w : World) :
  logged b (logged a w) = logged (a ++ b) w.
Proof. unfold logged. simpl. now rewrite app_assoc. Qed.

Lemma for_each_mkdirp (paths : list string) (w : World) :
  for_each paths mkdirp w = (inr tt, logged (map Mkdirp paths) w).
Proof.
  revert w. induction paths as [|p paths IH]; intros w; simpl.
  - unfold ret. now rewrite logged_nil.
  - unfold bind. simpl. rewrite IH.
    f_equal. apply (logged_logged [Mkdirp p]).
Qed.

(** ** The mount table *)

(** [l.count(x)] *)
Definition count (l : list string) (x : string) : nat :=
  count_occ string_dec l x.

Section Options.

Lemma count_app (l1 l2 : list string) (x : string) :
  count (l1 ++ l2) x = count l1 x + count l2 x.
Proof. apply count_occ_app. Qed.

Lemma contains_false (x : string) (l : list string) :
  contains x l = false <-> count l x = 0.
Proof.
  unfold contains, count. induction l as [|y l IH]; simpl; [tauto|].
  destruct (String.eqb_spec x y) as [->|N]; simpl.
  - destruct (string_dec y y) as [_|F]; [|contradiction].
    split; discriminate.
  - destruct (string_dec y x) as [E|_]; [congruence|exact IH].
Qed.

Lemma contains_true (x : string) (l : list string) :
  contains x l = true <-> 1 <= count l x.
Proof.
  destruct (contains x l) eqn:C.
  - split; [intros _|reflexivity].
    destruct (count l x) eqn:N; [|lia].
    apply contains_false in N. congruence.
  - apply contains_false in C. rewrite C. split; [discriminate|lia].
Qed.

(** Appending a marker unless it is there: its count becomes one when it
    was nought, and no other entry's count moves. *)
Lemma count_marker (x y : string) (l : list string) :
  count (if negb (contains x l) then l ++ [x] else l) y
  = if String.eqb x y then Nat.max 1 (count l y) else count l y.
Proof.
  destruct (contains x l) eqn:C; simpl.
  - destruct (String.eqb_spec x y) as [->|N]; [|reflexivity].
    apply contains_true in C. destruct (count l y); [lia|reflexivity].
  - rewrite count_app. unfold count at 2. simpl.
    destruct (String.eqb_spec x y) as [->|N].
    + apply contains_false in C. rewrite C.
      destruct (string_dec y y) as [_|F]; [reflexivity|contradiction].
    + destruct (string_dec x y) as [E|_]; [contradiction|].
      apply Nat.add_0_r.
Qed.

Lemma entry_options_count (mount : Mount) (y : string) :
  count (entry_options mount) y
  = if String.eqb "_netdev" y
    then Nat.max 1 (count (given_options mount) y)
    else if (fs_type mount =? "gcsfuse")%string && String.eqb "nonempty" y
         then Nat.max 1 (count (given_options mount) y)
         else count (given_options mount) y.
Proof.
  unfold entry_options.
  set (g := given_options mount).
  assert (E : (match g with [] => true | _ => false end
               || negb (contains "_netdev" g))
              = negb (contains "_netdev" g)).
  { destruct g; reflexivity. }
  rewrite E. clear E.
  destruct (fs_type mount =? "gcsfuse")%string; cbn [andb].
  - rewrite !count_marker.
    destruct (String.eqb_spec "nonempty" y) as [<-|N].
    + change ("_netdev" =? "nonempty")%string with false. reflexivity.
    + reflexivity.
  - rewrite count_marker. reflexivity.
Qed.

(** A gcsfuse record whose options spell the marker out twice. *)
Definition bucket_mount : Mount := {|
  server_ip := "none";
  remote_mount := PStr "bucket";
  local_mount := Some (PStr "/data");
  fs_type := "gcsfuse";
  mount_options := Some "nonempty,nonempty"
|}.

(** C5, as stated, fails: a gcsfuse record that lists nonempty twice is
    rendered with nonempty twice. *)
Lemma nonempty_rendered_twice :
  fs_type bucket_mount = "gcsfuse"
  /\ entry_options bucket_mount = ["nonempty"; "nonempty"; "_netdev"]
  /\ count (entry_options bucket_mount) "nonempty" = 2.
Proof. repeat split. Qed.

(** C5, amended. Every rendered options list has _netdev, and that of a
    gcsfuse record nonempty as well; each marker is appended once, and
    only when the given options lack it, so it is there as often as the
    given options list it and at least once: exactly once whenever they
    list it at most once. The given options are not de-duplicated. *)
Theorem entry_options_markers (mount : Mount) :
  count (entry_options mount) "_netdev"
  = Nat.max 1 (count (given_options mount) "_netdev")
  /\ (count (given_options mount) "_netdev" <= 1 ->
      count (entry_options mount) "_netdev" = 1)
  /\ (fs_type mount = "gcsfuse" ->
      count (entry_options mount) "nonempty"
      = Nat.max 1 (count (given_options mount) "nonempty")
      /\ (count (given_options mount) "nonempty" <= 1 ->
          count (entry_options mount) "nonempty" = 1)).
Proof.
  rewrite !entry_options_count.
  change ("_netdev" =? "_netdev")%string with true.
  change ("_netdev" =? "nonempty")%string with false.
  change ("nonempty" =? "nonempty")%string with true.
  cbn iota.
  assert (M : forall n, n <= 1 -> Nat.max 1 n = 1).
  { intros n L. now apply Nat.max_l. }
  split; [reflexivity|]. split; [apply M|].
  intros ->. change ("gcsfuse" =? "gcsfuse")%string with true.
  cbn [andb]. split; [reflexivity|apply M].
Qed.

Lemma entry_options_markers_witness :
  fs_type bucket_mount = "gcsfuse"
  /\ count (entry_options bucket_mount) "nonempty"
     = Nat.max 1 (count (given_options bucket_mount) "nonempty").
Proof.
  split; [reflexivity|].
  apply (entry_options_markers bucket_mount). reflexivity.
Defined.

End Options.

Section MountTable.

Import PyDict PyDictFacts.

Variable cfg : Config.
Variable resolve : string -> Path.
Variable get_pid : string -> string.

(** The items of [mounts] that get a line: those the loop does not
    [continue] past. *)
Definition rendered (its : list (Path * Mount)) : list (Path * Mount) :=
  filter (fun kv => negb (skipped cfg (snd kv))) its.

Definition entry_of (kv : Path * Mount) : string :=
  fstab_entry resolve (fst kv) (snd kv).

(** [mounts] as [setup_network_storage] assembles it from the split. *)
Definition node_mounts (ext_mounts int_mounts : dict Path Mount)
  : dict Path Mount :=
  if negb (instance_type cfg =? "controller")%string
  then update ext_mounts (items int_mounts)
  else ext_mounts.

(** The node once [entries] have been appended to /etc/fstab. *)
Definition fstab_appended (text : string) (w : World) : World :=
  {| etc_fstab := etc_fstab w ++ text; etc_exports := etc_exports w;
     cluster_exports := cluster_exports w;
     global_mounts := global_mounts w;
     calls := calls w |}.

Lemma fstab_loop_spec (its : list (Path * Mount)) (acc : list string)
    (w : World) :
  fstab_loop cfg resolve its acc w
  = (inr (acc ++ map entry_of (rendered its)),
     logged (map Mkdirp (map fst (rendered its))) w).
Proof.
  revert acc w. induction its as [|[k m] its IH]; intros acc w; simpl.
  - unfold ret. now rewrite app_nil_r, logged_nil.
  - destruct (skipped cfg m); simpl.
    + apply IH.
    + unfold bind. simpl. rewrite IH. f_equal.
      * now rewrite <- app_assoc.
      * apply (logged_logged [Mkdirp k]).
Qed.

Lemma for_each_fstab_write (entries : list string) (w : World) :
  for_each entries
    (fun entry => let! _ := fstab_write entry in fstab_write nl) w
  = (inr tt, fstab_appended (lines_text entries) w).
Proof.
  revert w. induction entries as [|e entries IH]; intros w; simpl.
  - unfold ret, fstab_appended. rewrite append_nil_r. now destruct w.
  - unfold bind at 1. unfold bind at 1. simpl. rewrite IH.
    unfold fstab_appended. simpl. now rewrite !append_assoc.
Qed.

Lemma write_fstab_spec (entries : list string) (w : World) :
  write_fstab entries w
  = (inr tt, fstab_appended (nl ++ lines_text entries) w).
Proof.
  unfold write_fstab, bind. simpl. rewrite for_each_fstab_write.
  unfold fstab_appended. simpl. now rewrite append_assoc.
Qed.

(** The whole of [setup_network_storage], once the split is known. *)
Lemma setup_network_storage_spec (ext_mounts int_mounts : dict Path Mount)
    (w : World) :
  prepare_network_mounts cfg resolve get_pid (hostname cfg)
    (instance_type cfg) = inr (ext_mounts, int_mounts) ->
  let mounts := node_mounts ext_mounts int_mounts in
  setup_network_storage cfg resolve get_pid w
  = (inr tt,
     {| etc_fstab :=
          etc_fstab w ++ nl ++ lines_text (map entry_of (rendered mounts));
        etc_exports := etc_exports w;
        cluster_exports := cluster_exports w;
        global_mounts := mounts;
        calls := calls w ++ map Mkdirp (map fst (rendered mounts))
                 ++ map Mkdirp (keys mounts) |}).
Proof.
  intros P mounts. unfold setup_network_storage.
  unfold bind at 1. unfold lift. rewrite P.
  fold (node_mounts ext_mounts int_mounts). fold mounts.
  unfold bind at 1. unfold set_mounts.
  unfold bind at 1. rewrite fstab_loop_spec.
  unfold bind at 1. rewrite for_each_mkdirp.
  rewrite write_fstab_spec. unfold items, fstab_appended, logged. simpl.
  now rewrite app_assoc.
Qed.

(** C9. Writing the mount table only appends to /etc/fstab: whatever the
    file held and whatever entries are written, the file afterwards is
    its former content, a newline, then each entry followed by a newline,
    in the order given; the former content is a prefix of it and the
    export files are untouched. [setup_network_storage] writes in this
    way one entry for each item of [mounts] it renders, in the order of
    [mounts]. *)
Theorem fstab_append_only :
  (forall (entries : list string) (w : World),
      fst (write_fstab entries w) = inr tt
      /\ etc_fstab (snd (write_fstab entries w))
         = (etc_fstab w ++ nl ++ lines_text entries)%string
      /\ String.prefix (etc_fstab w) (etc_fstab (snd (write_fstab entries w)))
         = true
      /\ etc_exports (snd (write_fstab entries w)) = etc_exports w
      /\ cluster_exports (snd (write_fstab entries w)) = cluster_exports w)
  /\ (forall (ext_mounts int_mounts : dict Path Mount) (w : World),
         prepare_network_mounts cfg resolve get_pid (hostname cfg)
           (instance_type cfg) = inr (ext_mounts, int_mounts) ->
         fst (setup_network_storage cfg resolve get_pid w) = inr tt
         /\ etc_fstab (snd (setup_network_storage cfg resolve get_pid w))
            = (etc_fstab w ++ nl
               ++ lines_text
                    (map entry_of
                       (rendered (node_mounts ext_mounts int_mounts))))%string
         /\ String.prefix (etc_fstab w)
              (etc_fstab (snd (setup_network_storage cfg resolve get_pid w)))
            = true).
Proof.
  split.
  - intros entries w. rewrite write_fstab_spec. simpl.
    repeat split. apply prefix_append.
  - intros ext_mounts int_mounts w P.
    rewrite (setup_network_storage_spec _ _ w P). simpl.
    repeat split. apply prefix_append.
Qed.

End MountTable.

(** ** The export table *)

Lemma filter_filter {A} (f g : A -> bool) (l : list A) :
  filter f (filter g l) = filter (fun x => g x && f x) l.
Proof.
  induction l as [|x l IH]; simpl; [reflexivity|].
  destruct (g x); simpl; [destruct (f x)|]; now rewrite IH.
Qed.

Section Exports.

Import PyDict PyDictFacts.

Variable sed_selects : string -> string -> bool.

(** /etc/exports after the sed command has run for each path in turn. *)
Definition purge (paths : list pathval) (ls : list string) : list string :=
  fold_left
    (fun ls p => filter (fun line => negb (sed_selects (str p) line)) ls)
    paths ls.

Definition survives (paths : list pathval) (line : string) : bool :=
  forallb (fun p => negb (sed_selects (str p) line)) paths.

Definition export_calls (p : pathval) : list call :=
  [Mkdirp (str p); Run ("sed -i '\#" ++ str p ++ "#d' /etc/exports")].

Lemma purge_filter (paths : list pathval) (ls : list string) :
  purge paths ls = filter (survives paths) ls.
Proof.
  unfold purge. revert ls.
  induction paths as [|p paths IH]; intros ls; simpl.
  - induction ls as [|l ls IHl]; simpl; [reflexivity|now rewrite <- IHl].
  - rewrite IH, filter_filter. reflexivity.
Qed.

Lemma in_purge (paths : list pathval) (ls : list string) (line : string) :
  In line (purge paths ls) <->
  In line ls /\ forall p, In p paths -> sed_selects (str p) line = false.
Proof.
  rewrite purge_filter, filter_In. unfold survives.
  rewrite forallb_forall. split; intros [I F]; split; auto; intros p Hp.
  - apply F in Hp. now destruct (sed_selects (str p) line).
  - rewrite (F p Hp). reflexivity.
Qed.

Lemma purge_idempotent (paths : list pathval) (ls : list string) :
  purge paths (purge paths ls) = purge paths ls.
Proof.
  rewrite !purge_filter, filter_filter. apply filter_ext.
  intros l. now destruct (survives paths l).
Qed.

Lemma exports_loop_spec (paths : list pathval) (acc : list string)
    (w : World) :
  exports_loop sed_selects paths acc w
  = (inr (acc ++ map export_line paths),
     {| etc_fstab := etc_fstab w;
        etc_exports := purge paths (etc_exports w);
        cluster_exports := cluster_exports w;
        global_mounts := global_mounts w;
        calls := calls w ++ flat_map export_calls paths |}).
Proof.
  revert acc w. induction paths as [|p paths IH]; intros acc w; simpl.
  - unfold ret. rewrite !app_nil_r. now destruct w.
  - unfold bind at 1. unfold mkdirp. unfold bind at 1. unfold sed_delete.
    rewrite IH. simpl. rewrite <- !app_assoc. reflexivity.
Qed.

(** What [write_exports] leaves behind. *)
Lemma write_exports_spec (con_mounts : dict pathval Mount) (w : World) :
  write_exports sed_selects con_mounts w
  = (inr tt,
     {| etc_fstab := etc_fstab w;
        etc_exports := purge (keys con_mounts) (etc_exports w);
        cluster_exports :=
          Some (nl ++ join nl (map export_line (keys con_mounts)))%string;
        global_mounts := global_mounts w;
        calls := calls w ++ flat_map export_calls (keys con_mounts)
                 ++ [Mkdirp "/etc/exports.d"; Run "exportfs -a"] |}).
Proof.
  unfold write_exports. unfold bind at 1. rewrite exports_loop_spec.
  unfold bind, mkdirp, fragment_open_w, fragment_write, run. simpl.
  rewrite <- !app_assoc. reflexivity.
Qed.

(** The fragment is a function of the export set alone, so a second run
    over the same export set rewrites the same bytes and leaves
    /etc/exports as the first run left it. *)
Lemma write_exports_idempotent (con_mounts : dict pathval Mount)
    (w : World) :
  let w1 := snd (write_exports sed_selects con_mounts w) in
  let w2 := snd (write_exports sed_selects con_mounts w1) in
  cluster_exports w2 = cluster_exports w1
  /\ etc_exports w2 = etc_exports w1
  /\ etc_fstab w2 = etc_fstab w.
Proof.
  intros w1 w2. subst w1 w2. rewrite !write_exports_spec. simpl.
  rewrite purge_idempotent. auto.
Qed.

(** No line that sed selects for an exported path stays in
    /etc/exports. *)
Lemma write_exports_purges (con_mounts : dict pathval Mount) (w : World)
    (p : pathval) (line : string) :
  In p (keys con_mounts) ->
  In line (etc_exports (snd (write_exports sed_selects con_mounts w))) ->
  sed_selects (str p) line = false.
Proof.
  rewrite write_exports_spec. simpl. intros I L.
  apply in_purge in L. now apply L.
Qed.

End Exports.

Section ExportSet.

Import PyDict PyDictFacts.

Variable cfg : Config.
Variable resolve : string -> Path.
Variable get_pid : string -> string.

Lemma in_keys_by_remote_mount (d : dict Path Mount) (p : pathval) :
  In p (keys (by_remote_mount d)) <->
  exists m, In m (values d) /\ remote_mount m = p.
Proof.
  unfold by_remote_mount. rewrite in_keys_of_items, map_map. simpl.
  rewrite in_map_iff. split; intros [m [A B]]; exists m; auto.
Qed.

(** The internal mounts as seen from a node of partition [pid]. *)
Definition partition_view (pid : string)
  : result (dict Path Mount * dict Path Mount) :=
  prepare_network_mounts cfg resolve get_pid (pid ++ "-n") "compute".

Lemma partition_loop_keys (defs : list (string * InstanceDef.t))
    (con0 con : dict pathval Mount) :
  partition_loop cfg resolve get_pid defs con0 = inr con ->
  forall p,
    In p (keys con) <->
    In p (keys con0)
    \/ exists pid def ext int m,
        In (pid, def) defs /\ partition_view pid = inr (ext, int)
        /\ In m (values int) /\ remote_mount m = p.
Proof.
  revert con0. induction defs as [|[pid def] defs IH]; intros con0 L p.
  - simpl in L. injection L as <-. split; [auto|].
    intros [I|(? & ? & ? & ? & ? & [] & _)]. exact I.
  - cbn [partition_loop] in L. fold (partition_view pid) in L.
    destruct (partition_view pid) as [e|[ext int]] eqn:V;
      cbn [rbind] in L; [discriminate L|].
    rewrite (IH _ L p), in_keys_update. unfold items.
    change (map fst (by_remote_mount int)) with (keys (by_remote_mount int)).
    rewrite in_keys_by_remote_mount. split.
    + intros [[I|(m & A & B)]|(pid' & def' & e' & i' & m & A & B)].
      * now left.
      * right. exists pid, def, ext, int, m. simpl. tauto.
      * right. exists pid', def', e', i', m. simpl. tauto.
    + intros [I|(pid' & def' & e' & i' & m & [A|A] & B & C & D)].
      * now left; left.
      * inversion A; subst. rewrite V in B. inversion B; subst.
        left; right. eauto.
      * right. exists pid', def', e', i', m. tauto.
Qed.

Lemma partition_loop_wf (defs : list (string * InstanceDef.t))
    (con0 con : dict pathval Mount) :
  partition_loop cfg resolve get_pid defs con0 = inr con ->
  wf con0 -> wf con.
Proof.
  revert con0. induction defs as [|[pid def] defs IH]; intros con0 L W.
  - simpl in L. now injection L as <-.
  - cbn [partition_loop] in L.
    destruct (prepare_network_mounts cfg resolve get_pid (pid ++ "-n")
                "compute") as [e|[ext int]]; cbn [rbind] in L;
      [discriminate L|].
    apply (IH _ L). now apply wf_update.
Qed.

(** What holds of the export set: it is a dictionary whose keys are the
    remote_mount values of the internal mounts of the controller's own
    view and of the view of a node of each declared partition. *)
Lemma export_mounts_keys (con : dict pathval Mount) :
  export_mounts cfg resolve get_pid = inr con ->
  wf con
  /\ forall p,
      In p (keys con) <->
      (exists ext int m,
          prepare_network_mounts cfg resolve get_pid (hostname cfg)
            (instance_type cfg) = inr (ext, int)
          /\ In m (values int) /\ remote_mount m = p)
      \/ exists pid def ext int m,
          In (pid, def) (items (instance_defs cfg))
          /\ partition_view pid = inr (ext, int)
          /\ In m (values int) /\ remote_mount m = p.
Proof.
  unfold export_mounts.
  destruct (prepare_network_mounts cfg resolve get_pid (hostname cfg)
              (instance_type cfg)) as [e|[ext int]]; cbn [rbind];
    [discriminate|].
  intros L. split.
  - apply (partition_loop_wf _ _ _ L). apply wf_of_items.
  - intros p. rewrite (partition_loop_keys _ _ _ L p).
    rewrite in_keys_by_remote_mount. split.
    + intros [(m & A & B)|H]; [left; exists ext, int, m; auto|now right].
    + intros [(e' & i' & m & A & B & C)|H]; [|now right].
      inversion A; subst. left. exists m; auto.
Qed.

End ExportSet.

Section Controller.

Import PyDict PyDictFacts.

Variable cfg : Config.
Variable resolve : string -> Path.
Variable get_pid : string -> string.
Variable sed_selects : string -> string -> bool.

Lemma prepare_network_mounts_locality (host role : string)
    (mounts : dict Path Mount) :
  resolved_mounts cfg resolve get_pid host role = inr mounts ->
  prepare_network_mounts cfg resolve get_pid host role
  = inr (filter (fun el => negb (internal_mount cfg el)) mounts,
         filter (internal_mount cfg) mounts).
Proof.
  intros H. unfold prepare_network_mounts. rewrite H. cbn [rbind].
  now rewrite (locality_filter _ _ (resolved_mounts_wf _ _ _ _ _ _ H)).
Qed.

Lemma setup_nfs_exports_spec (con : dict pathval Mount) (w : World) :
  export_mounts cfg resolve get_pid = inr con ->
  setup_nfs_exports cfg resolve get_pid sed_selects w
  = write_exports sed_selects con w.
Proof.
  intros E. unfold setup_nfs_exports, bind, lift. now rewrite E.
Qed.

(** C4. Take a record of the node's catalog that the controller serves.
    On the controller, [setup_network_storage] appends no line for it:
    the lines it appends are rendered from records served elsewhere,
    and the record is not among them; yet its remote_mount is a key of
    the export set, and [setup_nfs_exports] writes its export line into
    the fragment. On a node of any other role the record is among those
    rendered into /etc/fstab. *)
Theorem controller_mount_exported_not_mounted
    (mounts : dict Path Mount) (k : Path) (m : Mount) (w : World) :
  resolved_mounts cfg resolve get_pid (hostname cfg) (instance_type cfg)
  = inr mounts ->
  get k mounts = Some m ->
  server_ip m = CONTROL_MACHINE cfg ->
  let ext := fst (locality cfg mounts) in
  let int := snd (locality cfg mounts) in
  let table := rendered cfg (node_mounts cfg ext int) in
  let w' := snd (setup_network_storage cfg resolve get_pid w) in
  fst (setup_network_storage cfg resolve get_pid w) = inr tt
  /\ etc_fstab w'
     = (etc_fstab w ++ nl ++ lines_text (map (entry_of resolve) table))%string
  /\ (instance_type cfg = "controller" ->
      ~ In (k, m) table
      /\ (forall kv, In kv table -> server_ip (snd kv) <> CONTROL_MACHINE cfg)
      /\ forall con,
          export_mounts cfg resolve get_pid = inr con ->
          let w2 :=
            snd (setup_nfs_exports cfg resolve get_pid sed_selects w') in
          In (remote_mount m) (keys con)
          /\ fst (setup_nfs_exports cfg resolve get_pid sed_selects w')
             = inr tt
          /\ cluster_exports w2
             = Some (nl ++ join nl (map export_line (keys con)))%string
          /\ In (export_line (remote_mount m)) (map export_line (keys con)))
  /\ (instance_type cfg <> "controller" ->
      In (k, m) table
      /\ In (entry_of resolve (k, m)) (map (entry_of resolve) table)).
Proof.
  intros H G S ext int table w'.
  pose proof (resolved_mounts_wf _ _ _ _ _ _ H) as W.
  pose proof (prepare_network_mounts_locality _ _ _ H) as P.
  subst ext int table w'. rewrite (locality_filter _ _ W). cbn [fst snd].
  set (fe := filter (fun el => negb (internal_mount cfg el)) mounts) in *.
  set (fi := filter (internal_mount cfg) mounts) in *.
  rewrite (setup_network_storage_spec _ _ _ _ _ w P). cbn [fst snd etc_fstab].
  assert (Gi : get k fi = Some m) by (apply get_internal; auto).
  assert (Ext : forall kv, In kv fe -> server_ip (snd kv) <> CONTROL_MACHINE cfg).
  { intros kv I. apply filter_In in I. destruct I as [_ N].
    unfold internal_mount in N.
    destruct (String.eqb_spec (server_ip (snd kv)) (CONTROL_MACHINE cfg));
      [discriminate|assumption]. }
  split; [reflexivity|]. split; [reflexivity|]. split.
  - intros C. unfold node_mounts. rewrite C.
    change ("controller" =? "controller")%string with true. cbn [negb].
    assert (T : forall kv, In kv (rendered cfg fe) ->
                           server_ip (snd kv) <> CONTROL_MACHINE cfg).
    { intros kv I. apply Ext. unfold rendered in I.
      apply filter_In in I. tauto. }
    split; [|split; [exact T|]].
    + intros I. apply T in I. simpl in I. contradiction.
    + intros con E.
      rewrite (setup_nfs_exports_spec _ _ E), write_exports_spec.
      cbn [fst snd cluster_exports].
      assert (I : In (remote_mount m) (keys con)).
      { apply (export_mounts_keys _ _ _ _ E). left.
        exists fe, fi, m. split; [exact P|]. split; [|reflexivity].
        apply get_some_in in Gi. unfold values.
        change m with (snd (k, m)). now apply in_map. }
      split; [exact I|]. split; [reflexivity|]. split; [reflexivity|].
      now apply in_map.
  - intros C. unfold node_mounts.
    apply String.eqb_neq in C. rewrite C. cbn [negb].
    assert (I : In (k, m) (rendered cfg (update fe (items fi)))).
    { unfold rendered. apply filter_In. split.
      - apply get_some_in. rewrite get_update.
        unfold items. rewrite last_value_wf by (apply wf_filter, W).
        now rewrite Gi.
      - unfold skipped. cbn [snd]. rewrite C. now rewrite andb_false_r. }
    split; [exact I|]. now apply in_map.
Qed.

End Controller.

(** ** A path exported twice *)

(** A partition whose nodes mount /home from the controller with their
    own options: the record comes from the YAML configuration, so its
    remote_mount is the [str] ['/home']. *)
Definition home_override : Mount := {|
  server_ip := "c-controller";
  remote_mount := PStr "/home";
  local_mount := Some (PStr "/home");
  fs_type := "nfs";
  mount_options := Some "defaults,hard,intr,nolock"
|}.

(** The controller of cluster [c], with that one partition. *)
Definition cfg_home : Config := {|
  cluster_name := "c";
  hostname := "c-controller";
  instance_type := "controller";
  network_storage := [];
  login_network_storage := [];
  instance_defs :=
    [("c-compute-0", {| InstanceDef.network_storage := [home_override] |})]
|}.

Definition home_line : string := "/home  *(rw,no_subtree_check,no_root_squash)".

Section HomeExportedTwice.

Import PyDict PyDictFacts.

Variable resolve : string -> Path.
Variable get_pid : string -> string.
Variable sed_selects : string -> string -> bool.

Definition home_export_set : dict pathval Mount :=
  [(PPath "/home", Config_with (CONTROL_NFS cfg_home) "/home");
   (PPath "/apps", Config_with (CONTROL_NFS cfg_home) "/apps");
   (PPath "/mnt/disks/sec/apps",
    Config_with (CONTROL_NFS cfg_home) "/mnt/disks/sec/apps");
   (PStr "/home", home_override)].

Lemma export_mounts_home :
  resolve "/home" = "/home" ->
  get_pid "c-compute-0-n" = "c-compute-0" ->
  export_mounts cfg_home resolve get_pid = inr home_export_set.
Proof.
  intros Hres Hpid.
  assert (V : prepare_network_mounts cfg_home resolve get_pid
                "c-compute-0-n" "compute"
              = inr ([],
                     [("/home", home_override);
                      ("/apps", Config_with (CONTROL_NFS cfg_home) "/apps");
                      ("/mnt/disks/sec/apps",
                       Config_with (CONTROL_NFS cfg_home)
                         "/mnt/disks/sec/apps")])).
  { unfold prepare_network_mounts, resolved_mounts.
    rewrite Hpid. cbn -[locality]. rewrite Hres. reflexivity. }
  unfold export_mounts. cbn. rewrite V. reflexivity.
Qed.

(** C3, at a configuration the script can be given: the controller's own
    view keys /home by the [Path] of the default mount, the partition's
    view by the [str] of its override; the two keys differ, both stay in
    the export set, and the export line of /home is produced twice. *)
Theorem home_exported_twice :
  resolve "/home" = "/home" ->
  get_pid "c-compute-0-n" = "c-compute-0" ->
  exists con,
    export_mounts cfg_home resolve get_pid = inr con
    /\ keys con = [PPath "/home"; PPath "/apps";
                   PPath "/mnt/disks/sec/apps"; PStr "/home"]
    /\ map str (keys con) = ["/home"; "/apps"; "/mnt/disks/sec/apps"; "/home"]
    /\ count (map export_line (keys con)) home_line = 2.
Proof.
  intros Hres Hpid. exists home_export_set.
  split; [now apply export_mounts_home|]. repeat split.
Qed.

(** C6, at the same configuration: whatever the files held before,
    [setup_nfs_exports] leaves a fragment with two lines for /home, and
    a second run writes the same bytes again. *)
Theorem fragment_lists_home_twice (w : World) :
  resolve "/home" = "/home" ->
  get_pid "c-compute-0-n" = "c-compute-0" ->
  let run := setup_nfs_exports cfg_home resolve get_pid sed_selects in
  let w1 := snd (run w) in
  fst (run w) = inr tt
  /\ cluster_exports w1
     = Some (nl ++ join nl [home_line;
                            "/apps  *(rw,no_subtree_check,no_root_squash)";
                            "/mnt/disks/sec/apps  *(rw,no_subtree_check,no_root_squash)";
                            home_line])%string
  /\ (forall text, cluster_exports w1 = Some text ->
                   count (split "010" text) home_line = 2)
  /\ cluster_exports (snd (run w1)) = cluster_exports w1.
Proof.
  intros Hres Hpid run w1. subst run w1.
  rewrite !(setup_nfs_exports_spec _ _ _ _ _ _
              (export_mounts_home Hres Hpid)).
  rewrite !write_exports_spec. cbn [fst snd cluster_exports].
  split; [reflexivity|]. split; [reflexivity|]. split; [|reflexivity].
  intros text [= <-]. reflexivity.
Qed.

End HomeExportedTwice.

(** ** Waiting for a mount *)

Module WaiterFacts.
Import Waiter ITreeNotations.
Local Open Scope itree_scope.

Lemma unmounted_mon : monotone1 unmounted_.
Proof.
  intros t r r' H LE. unfold unmounted_ in *.
  destruct H; constructor; auto.
Qed.
#[local] Hint Resolve unmounted_mon : paco.

Section Runs.

Variable mounted : nat -> bool.
Variable path : string.

(** One turn of the loop, run on the node: a poll that sees the mount
    ends the loop; any other is followed by the log line and the mount
    command, and the loop starts again. *)
Lemma mount_path_turn (s : Node) :
  interp_state (h_wait mounted) (mount_path path) s
  ≈ (if mounted (polls s)
     then Ret ({| polls := S (polls s);
                  journal := journal s ++ [Polled path true] |}, tt)
     else interp_state (h_wait mounted) (mount_path path)
            {| polls := S (polls s);
               journal := journal s ++ attempt path |}).
Proof.
  unfold mount_path at 1. rewrite unfold_iter at 1.
  unfold mount_path_body at 1.
  rewrite bind_bind, interp_state_bind, interp_state_trigger.
  cbn -[waiting_for mount_command].
  rewrite bind_ret_l. cbn -[waiting_for mount_command].
  destruct (mounted (polls s)) eqn:E.
  - rewrite bind_ret_l. rewrite interp_state_ret. reflexivity.
  - rewrite !bind_bind.
    rewrite interp_state_bind, interp_state_trigger.
    cbn -[waiting_for mount_command].
    rewrite bind_ret_l. cbn -[waiting_for mount_command].
    rewrite bind_bind, interp_state_bind, interp_state_trigger.
    cbn -[waiting_for mount_command].
    rewrite bind_ret_l. cbn -[waiting_for mount_command].
    rewrite bind_ret_l. cbn -[waiting_for mount_command].
    rewrite interp_state_tau, tau_eutt.
    unfold attempt. rewrite <- !app_assoc. reflexivity.
Qed.

Lemma mount_path_after (n : nat) (s : Node) :
  (forall k, k < n -> mounted (polls s + k) = false) ->
  mounted (polls s + n) = true ->
  interp_state (h_wait mounted) (mount_path path) s
  ≈ Ret ({| polls := S (polls s + n);
            journal := journal s ++ attempts n path ++ [Polled path true] |},
         tt).
Proof.
  revert s. induction n as [|n IH]; intros s F T.
  - rewrite mount_path_turn. rewrite Nat.add_0_r in T. rewrite T.
    rewrite Nat.add_0_r. reflexivity.
  - rewrite mount_path_turn.
    rewrite <- (Nat.add_0_r (polls s)) at 1. rewrite (F 0) by lia.
    rewrite IH.
    + cbn [polls journal attempts].
      rewrite <- Nat.add_succ_comm, <- !app_assoc. reflexivity.
    + intros k L. cbn [polls]. rewrite Nat.add_succ_comm. apply F. lia.
    + cbn [polls]. now rewrite Nat.add_succ_comm.
Qed.

Lemma mount_path_waits : waits_forever (mount_path path).
Proof.
  pcofix CIH. pfold. unfold unmounted_. cbn.
  constructor. left. pfold. unfold unmounted_. cbn.
  constructor. left. pfold. unfold unmounted_. cbn.
  constructor. left. pfold. unfold unmounted_. cbn.
  constructor. right. exact CIH.
Qed.

End Runs.

(** C8. The loop for one path has no attempt ceiling and no error exit.
    Whatever the node does, if the first n polls do not see the mount and
    the next one does, then for every n the loop returns normally after
    exactly n rounds of poll, log line and [mount path] with a wait of 5,
    and it returns on the poll that sees the mount; and along the polls
    that do not see the mount it never returns at all. *)
Theorem mount_path_retries_until_mounted (path : string) :
  (forall (mounted : nat -> bool) (n : nat),
      (forall k, k < n -> mounted k = false) ->
      mounted n = true ->
      interp_state (h_wait mounted) (mount_path path)
        {| polls := 0; journal := [] |}
      ≈ Ret ({| polls := S n;
                journal := attempts n path ++ [Polled path true] |}, tt))
  /\ waits_forever (mount_path path).
Proof.
  split.
  - intros mounted n F T.
    apply (mount_path_after mounted path n {| polls := 0; journal := [] |});
      assumption.
  - apply mount_path_waits.
Qed.

(** Mounted from the third poll on. *)
Definition third_poll (k : nat) : bool := Nat.leb 2 k.

Lemma mount_path_retries_until_mounted_witness :
  (forall k, k < 2 -> third_poll k = false)
  /\ third_poll 2 = true
  /\ interp_state (h_wait third_poll) (mount_path "/home")
       {| polls := 0; journal := [] |}
     ≈ Ret ({| polls := 3;
               journal := attempts 2 "/home" ++ [Polled "/home" true] |}, tt).
Proof.
  assert (F : forall k, k < 2 -> third_poll k = false).
  { intros k L. destruct k as [|[|k]]; [reflexivity|reflexivity|lia]. }
  split; [exact F|]. split; [reflexivity|].
  apply (proj1 (mount_path_retries_until_mounted "/home") third_poll 2 F).
  reflexivity.
Defined.

End WaiterFacts.

(** ** The theorems at a sample cluster *)

(** Cluster [c]: /apps comes from an external server for every node, the
    login nodes and the controller mount a bucket, and the nodes of the
    one partition mount /home with their own options. *)
Definition apps_override : Mount := {|
  server_ip := "nfs1";
  remote_mount := PStr "/export/apps";
  local_mount := Some (PStr "/apps");
  fs_type := "nfs";
  mount_options := None
|}.

Definition cfg_sample : Config := {|
  cluster_name := "c";
  hostname := "c-controller";
  instance_type := "controller";
  network_storage := [apps_override];
  login_network_storage := [bucket_mount];
  instance_defs :=
    [("c-compute-0", {| InstanceDef.network_storage := [home_override] |})]
|}.

(** A record that does not say where to mount. *)
Definition no_local_mount : Mount := {|
  server_ip := "nfs1";
  remote_mount := PStr "/export/scratch";
  local_mount := None;
  fs_type := "nfs";
  mount_options := None
|}.

Definition cfg_no_local_mount : Config := {|
  cluster_name := "c";
  hostname := "c-controller";
  instance_type := "controller";
  network_storage := [apps_override; no_local_mount];
  login_network_storage := [];
  instance_defs := []
|}.

(** A node without symbolic links, given absolute paths. *)
Definition same_path (s : string) : Path := s.

(** Every node name is taken to belong to the one partition. *)
Definition only_partition (_ : string) : string := "c-compute-0".

(** sed on a path without pattern characters: the lines that contain it. *)
Definition sed_literal (path line : string) : bool :=
  match String.index 0 path line with Some _ => true | None => false end.

Definition fresh_node : World := {|
  etc_fstab := "# /etc/fstab";
  etc_exports := ["/home  *(rw)"; "/srv  *(ro)"];
  cluster_exports := None;
  global_mounts := [];
  calls := []
|}.

Definition sample_catalog : PyDict.dict Path Mount :=
  [("/home", Config_with (CONTROL_NFS cfg_sample) "/home");
   ("/apps", apps_override);
   ("/mnt/disks/sec/apps",
    Config_with (CONTROL_NFS cfg_sample) "/mnt/disks/sec/apps");
   ("/data", bucket_mount)].

Lemma sample_catalog_resolved :
  resolved_mounts cfg_sample same_path only_partition
    (hostname cfg_sample) (instance_type cfg_sample)
  = inr sample_catalog.
Proof. reflexivity. Qed.

Lemma catalog_precedence_witness :
  role_network_storage cfg_sample only_partition "c-compute-0-1" "compute"
  = inr [home_override]
  /\ Forall has_local_mount (network_storage cfg_sample)
  /\ Forall has_local_mount [home_override]
  /\ exists mounts,
      resolved_mounts cfg_sample same_path only_partition
        "c-compute-0-1" "compute" = inr mounts
      /\ PyDict.get "/home" mounts = Some home_override
      /\ PyDict.get "/apps" mounts = Some apps_override.
Proof.
  assert (HG : Forall has_local_mount (network_storage cfg_sample)).
  { repeat constructor. discriminate. }
  assert (HR : Forall has_local_mount [home_override]).
  { repeat constructor. discriminate. }
  split; [reflexivity|]. split; [exact HG|]. split; [exact HR|].
  destruct (catalog_precedence cfg_sample same_path only_partition
              "c-compute-0-1" "compute" [home_override] eq_refl HG HR)
    as [mounts [E [_ G]]].
  exists mounts. split; [exact E|]. split; rewrite G; reflexivity.
Defined.

Lemma sample_catalog_wf : PyDict.wf sample_catalog.
Proof.
  unfold PyDict.wf. simpl.
  repeat constructor; simpl; intuition discriminate.
Qed.

Lemma locality_partitions_catalog_witness :
  PyDict.wf sample_catalog
  /\ forall k,
      In k (PyDict.keys sample_catalog) <->
      In k (PyDict.keys (fst (locality cfg_sample sample_catalog)))
      \/ In k (PyDict.keys (snd (locality cfg_sample sample_catalog))).
Proof.
  split; [exact sample_catalog_wf|].
  exact (proj1 (locality_partitions_catalog cfg_sample sample_catalog
                  sample_catalog_wf)).
Defined.

Lemma missing_local_mount_aborts_witness :
  role_network_storage cfg_no_local_mount only_partition
    "c-controller" "controller" = inr []
  /\ (Exists (fun d => local_mount d = None)
        (network_storage cfg_no_local_mount)
      \/ Exists (fun d => local_mount d = None) [])
  /\ prepare_network_mounts cfg_no_local_mount same_path only_partition
       "c-controller" "controller" = inl (KeyError "local_mount")
  /\ setup_network_storage cfg_no_local_mount same_path only_partition
       fresh_node = (inl (KeyError "local_mount"), fresh_node).
Proof.
  assert (B : Exists (fun d => local_mount d = None)
                (network_storage cfg_no_local_mount)
              \/ Exists (fun d => local_mount d = None) []).
  { left. apply Exists_cons_tl, Exists_cons_hd. reflexivity. }
  split; [reflexivity|]. split; [exact B|].
  destruct (missing_local_mount_aborts cfg_no_local_mount same_path
              only_partition "c-controller" "controller" [] fresh_node
              eq_refl B) as [_ [P S]].
  split; [exact P|]. apply S; reflexivity.
Defined.

Lemma fstab_append_only_witness :
  prepare_network_mounts cfg_sample same_path only_partition
    (hostname cfg_sample) (instance_type cfg_sample)
  = inr (locality cfg_sample sample_catalog)
  /\ fst (setup_network_storage cfg_sample same_path only_partition
            fresh_node) = inr tt
  /\ String.prefix (etc_fstab fresh_node)
       (etc_fstab
          (snd (setup_network_storage cfg_sample same_path only_partition
                  fresh_node))) = true.
Proof.
  split; [reflexivity|].
  destruct (proj2 (fstab_append_only cfg_sample same_path only_partition)
              (fst (locality cfg_sample sample_catalog))
              (snd (locality cfg_sample sample_catalog))
              fresh_node eq_refl) as [R [_ P]].
  split; [exact R|exact P].
Defined.

Lemma controller_mount_exported_not_mounted_witness :
  resolved_mounts cfg_sample same_path only_partition
    (hostname cfg_sample) (instance_type cfg_sample) = inr sample_catalog
  /\ PyDict.get "/home" sample_catalog
     = Some (Config_with (CONTROL_NFS cfg_sample) "/home")
  /\ server_ip (Config_with (CONTROL_NFS cfg_sample) "/home")
     = CONTROL_MACHINE cfg_sample
  /\ fst (setup_network_storage cfg_sample same_path only_partition
            fresh_node) = inr tt.
Proof.
  split; [reflexivity|]. split; [reflexivity|]. split; [reflexivity|].
  exact (proj1 (controller_mount_exported_not_mounted cfg_sample same_path
                  only_partition sed_literal sample_catalog "/home"
                  (Config_with (CONTROL_NFS cfg_sample) "/home") fresh_node
                  eq_refl eq_refl eq_refl)).
Defined.

Lemma home_exported_twice_witness :
  same_path "/home" = "/home"
  /\ only_partition "c-compute-0-n" = "c-compute-0"
  /\ exists con,
      export_mounts cfg_home same_path only_partition = inr con
      /\ count (map export_line (PyDict.keys con)) home_line = 2.
Proof.
  split; [reflexivity|]. split; [reflexivity|].
  destruct (home_exported_twice same_path only_partition eq_refl eq_refl)
    as [con [E [_ [_ C]]]].
  exists con. split; [exact E|exact C].
Defined.

Lemma fragment_lists_home_twice_witness :
  same_path "/home" = "/home"
  /\ only_partition "c-compute-0-n" = "c-compute-0"
  /\ fst (setup_nfs_exports cfg_home same_path only_partition sed_literal
            fresh_node) = inr tt.
Proof.
  split; [reflexivity|]. split; [reflexivity|].
  exact (proj1 (fragment_lists_home_twice same_path only_partition
                  sed_literal fresh_node eq_refl eq_refl)).
Defined.

(** * Further properties *)

(** ** Order and shape of the catalog *)

Section CatalogShape.

Import PyDict PyDictFacts.

Variable cfg : Config.
Variable resolve : string -> Path.
Variable get_pid : string -> string.

Lemma keys_set_grows {K V} `{PyKey K} (k : K) (v : V) (d : dict K V) :
  exists rest, keys (set k v d) = keys d ++ rest.
Proof.
  rewrite keys_set. destruct (get k d).
  - exists []. now rewrite app_nil_r.
  - now exists [k].
Qed.

Lemma keys_update_grows {K V} `{PyKey K} (d : dict K V) (e : list (K * V)) :
  exists rest, keys (update d e) = keys d ++ rest.
Proof.
  unfold update. revert d. induction e as [|[k v] e IH]; intros d; simpl.
  - exists []. now rewrite app_nil_r.
  - destruct (IH (set k v d)) as [r1 E1].
    destruct (keys_set_grows k v d) as [r2 E2].
    exists (r2 ++ r1). now rewrite E1, E2, app_assoc.
Qed.

(** Whatever the branch taken, a catalog is the seeded defaults updated
    twice. *)
Lemma resolved_mounts_updates (host role : string)
    (mounts : dict Path Mount) :
  resolved_mounts cfg resolve get_pid host role = inr mounts ->
  exists g r, mounts = update (update (seeded_mounts cfg) g) r.
Proof.
  unfold resolved_mounts.
  destruct (listtodict resolve (network_storage cfg)) as [e|g];
    cbn [rbind]; [discriminate|].
  destruct (role =? "compute")%string.
  - destruct (getitem (get_pid host) (instance_defs cfg)) as [e|def];
      cbn [rbind]; [discriminate|].
    destruct (listtodict resolve (InstanceDef.network_storage def))
      as [e|r]; cbn [rbind]; [discriminate|].
    intros [= <-]. now exists (items g), (items r).
  - destruct (listtodict resolve (login_network_storage cfg))
      as [e|r]; cbn [rbind]; [discriminate|].
    intros [= <-]. now exists (items g), (items r).
Qed.

(** X1. A resolved catalog has no key twice, and it iterates the three
    default paths first, in their order /home, /apps, /mnt/disks/sec/apps,
    whether or not an override replaced their records: an override of a
    default takes the default's place, any other key follows. *)
Theorem catalog_iteration_order (host role : string)
    (mounts : dict Path Mount) :
  resolved_mounts cfg resolve get_pid host role = inr mounts ->
  NoDup (keys mounts)
  /\ exists rest, keys mounts = default_mounts ++ rest.
Proof.
  intros H. split.
  - exact (resolved_mounts_wf _ _ _ _ _ _ H).
  - destruct (resolved_mounts_updates _ _ _ H) as [g [r ->]].
    destruct (keys_update_grows (update (seeded_mounts cfg) g) r) as [r1 E1].
    destruct (keys_update_grows (seeded_mounts cfg) g) as [r2 E2].
    exists (r2 ++ r1). rewrite E1, E2, <- app_assoc. reflexivity.
Qed.

(** X2. The two dictionaries [prepare_network_mounts] returns list their
    records in the order of the catalog: the external one is the catalog
    with the controller's records struck out, the internal one the catalog
    with only those left. *)
Theorem prepare_network_mounts_keeps_order (host role : string)
    (ext_mounts int_mounts : dict Path Mount) :
  prepare_network_mounts cfg resolve get_pid host role
  = inr (ext_mounts, int_mounts) ->
  exists mounts,
    resolved_mounts cfg resolve get_pid host role = inr mounts
    /\ items ext_mounts
       = filter (fun kv => negb (server_ip (snd kv) =? CONTROL_MACHINE cfg)%string)
           (items mounts)
    /\ items int_mounts
       = filter (fun kv => (server_ip (snd kv) =? CONTROL_MACHINE cfg)%string)
           (items mounts).
Proof.
  unfold prepare_network_mounts.
  destruct (resolved_mounts cfg resolve get_pid host role) as [e|mounts] eqn:R;
    cbn [rbind]; [discriminate|].
  rewrite (locality_filter _ _ (resolved_mounts_wf _ _ _ _ _ _ R)).
  intros [= <- <-]. exists mounts. repeat split.
Qed.

(** X3. Asked for the mounts of a compute node whose partition id is not a
    key of [cfg.instance_defs], [prepare_network_mounts] raises
    [KeyError] on that id, once the global list has been read without
    fault. *)
Theorem compute_node_of_unknown_partition (host : string) :
  Forall has_local_mount (network_storage cfg) ->
  get (get_pid host) (instance_defs cfg) = None ->
  prepare_network_mounts cfg resolve get_pid host "compute"
  = inl (KeyError (get_pid host)).
Proof.
  intros FG N. unfold prepare_network_mounts, resolved_mounts.
  rewrite (listtodict_ok _ _ FG). cbn [rbind].
  change ("compute" =? "compute")%string with true. cbn iota.
  unfold getitem. rewrite N. reflexivity.
Qed.

End CatalogShape.

(** ** The export plan as a whole *)

Section ExportPlan.

Import PyDict PyDictFacts.

Variable cfg : Config.
Variable resolve : string -> Path.
Variable get_pid : string -> string.
Variable sed_selects : string -> string -> bool.

(** The only exceptions of [resolved_mounts]. *)
Lemma resolved_mounts_raises (host role : string) (e : exn) :
  resolved_mounts cfg resolve get_pid host role = inl e ->
  e = KeyError "local_mount"
  \/ (get (get_pid host) (instance_defs cfg) = None
      /\ e = KeyError (get_pid host) /\ role = "compute").
Proof.
  unfold resolved_mounts.
  destruct (listtodict resolve (network_storage cfg)) as [e0|g] eqn:LG;
    cbn [rbind].
  - intros [= <-]. left. now apply (listtodict_raises resolve _ _ LG).
  - destruct (String.eqb_spec role "compute") as [C|C].
    + unfold getitem.
      destruct (get (get_pid host) (instance_defs cfg)) as [def|] eqn:G;
        cbn [rbind].
      * destruct (listtodict resolve (InstanceDef.network_storage def))
          as [e1|r] eqn:LR; cbn [rbind]; [|discriminate].
        intros [= <-]. left. now apply (listtodict_raises resolve _ _ LR).
      * unfold raise. intros [= <-]. now right.
    + destruct (listtodict resolve (login_network_storage cfg))
        as [e1|r] eqn:LR; cbn [rbind]; [|discriminate].
      intros [= <-]. left. now apply (listtodict_raises resolve _ _ LR).
Qed.

Lemma partition_view_ok (pid : string) (def : InstanceDef.t) :
  Forall has_local_mount (network_storage cfg) ->
  get_pid (pid ++ "-n") = pid ->
  get pid (instance_defs cfg) = Some def ->
  Forall has_local_mount (InstanceDef.network_storage def) ->
  exists ext int, partition_view cfg resolve get_pid pid = inr (ext, int).
Proof.
  intros FG HP G FR. unfold partition_view, prepare_network_mounts.
  rewrite (resolved_mounts_layers cfg resolve get_pid (pid ++ "-n") "compute"
             (InstanceDef.network_storage def)); try assumption.
  - cbn [rbind]. unfold locality. eauto.
  - unfold role_network_storage, getitem.
    change ("compute" =? "compute")%string with true. cbn iota.
    rewrite HP, G. reflexivity.
Qed.

Lemma partition_view_missing (pid : string) (def : InstanceDef.t) :
  get_pid (pid ++ "-n") = pid ->
  get pid (instance_defs cfg) = Some def ->
  Exists (fun d => local_mount d = None) (InstanceDef.network_storage def) ->
  partition_view cfg resolve get_pid pid = inl (KeyError "local_mount").
Proof.
  intros HP G B. unfold partition_view, prepare_network_mounts.
  destruct (resolved_mounts cfg resolve get_pid (pid ++ "-n") "compute")
    as [e|mounts] eqn:R; cbn [rbind].
  - destruct (resolved_mounts_raises _ _ _ R) as [->|[N _]]; [reflexivity|].
    rewrite HP, G in N. discriminate N.
  - exfalso. revert R. unfold resolved_mounts.
    destruct (listtodict resolve (network_storage cfg)) as [e0|g];
      cbn [rbind]; [discriminate|].
    change ("compute" =? "compute")%string with true. cbn iota.
    unfold getitem. rewrite HP, G. cbn [rbind].
    rewrite (listtodict_missing resolve _ B). discriminate.
Qed.

Lemma partition_loop_total (defs : list (string * InstanceDef.t))
    (con0 : dict pathval Mount) :
  (forall pid def, In (pid, def) defs ->
     exists ext int, partition_view cfg resolve get_pid pid = inr (ext, int)) ->
  exists con, partition_loop cfg resolve get_pid defs con0 = inr con.
Proof.
  revert con0. induction defs as [|[pid def] defs IH]; intros con0 A.
  - now exists con0.
  - cbn [partition_loop]. fold (partition_view cfg resolve get_pid pid).
    destruct (A pid def) as [ext [int V]]; [now left|].
    rewrite V. cbn [rbind]. apply IH. intros p d I. apply (A p d). now right.
Qed.

Lemma partition_loop_missing (defs : list (string * InstanceDef.t))
    (con0 : dict pathval Mount) :
  (forall pid def, In (pid, def) defs ->
     partition_view cfg resolve get_pid pid = inl (KeyError "local_mount")
     \/ exists ext int, partition_view cfg resolve get_pid pid = inr (ext, int)) ->
  (exists pid def, In (pid, def) defs
     /\ partition_view cfg resolve get_pid pid = inl (KeyError "local_mount")) ->
  partition_loop cfg resolve get_pid defs con0 = inl (KeyError "local_mount").
Proof.
  revert con0. induction defs as [|[pid def] defs IH]; intros con0 A B.
  - destruct B as (? & ? & [] & _).
  - cbn [partition_loop]. fold (partition_view cfg resolve get_pid pid).
    destruct (A pid def) as [V|[ext [int V]]]; [now left| |];
      rewrite V; cbn [rbind]; [reflexivity|].
    apply IH.
    + intros p d I. apply (A p d). now right.
    + destruct B as (p & d & [E|I] & F).
      * inversion E; subst. rewrite V in F. discriminate F.
      * now exists p, d.
Qed.

(** X4. Export planning goes through whenever no record anywhere lacks
    local_mount and [get_pid] reads the partition id back from the node
    name [pid-n] that [setup_nfs_exports] makes up for each partition: an
    export set is then computed and [setup_nfs_exports] ends without an
    exception, having written the fragment for that export set. *)
Theorem export_planning_succeeds (R : list Mount) (w : World) :
  role_network_storage cfg get_pid (hostname cfg) (instance_type cfg) = inr R ->
  Forall has_local_mount (network_storage cfg) ->
  Forall has_local_mount R ->
  Forall
    (fun pd => get_pid (fst pd ++ "-n") = fst pd
               /\ Forall has_local_mount (InstanceDef.network_storage (snd pd)))
    (items (instance_defs cfg)) ->
  exists con,
    export_mounts cfg resolve get_pid = inr con
    /\ fst (setup_nfs_exports cfg resolve get_pid sed_selects w) = inr tt
    /\ cluster_exports
         (snd (setup_nfs_exports cfg resolve get_pid sed_selects w))
       = Some (nl ++ join nl (map export_line (keys con)))%string.
Proof.
  intros HR FG FR FD.
  assert (E : exists con, export_mounts cfg resolve get_pid = inr con).
  { unfold export_mounts, prepare_network_mounts.
    rewrite (resolved_mounts_layers cfg resolve get_pid _ _ R HR FG FR).
    cbn [rbind]. unfold locality. cbn [rbind].
    apply partition_loop_total. intros pid def I.
    rewrite Forall_forall in FD.
    destruct (proj1 (in_keys_get pid (instance_defs cfg))) as [def' G].
    { change pid with (fst (pid, def)). now apply in_map. }
    destruct (FD (pid, def') (get_some_in _ _ _ G)) as [HP FP].
    now apply (partition_view_ok pid def'). }
  destruct E as [con E]. exists con. split; [exact E|].
  unfold setup_nfs_exports, bind, lift. rewrite E.
  rewrite write_exports_spec. split; reflexivity.
Qed.

(** X5. One partition with a record lacking local_mount stops the whole
    export step, even when the controller's own mounts are in order:
    [setup_nfs_exports] raises [KeyError('local_mount')] before it has
    touched anything; no sed has run on /etc/exports, the fragment is not
    written and exportfs is not called. *)
Theorem bad_partition_stops_exports (pid : string) (def : InstanceDef.t)
    (ext int : dict Path Mount) (w : World) :
  prepare_network_mounts cfg resolve get_pid (hostname cfg) (instance_type cfg)
  = inr (ext, int) ->
  (forall p d, In (p, d) (items (instance_defs cfg)) -> get_pid (p ++ "-n") = p) ->
  get pid (instance_defs cfg) = Some def ->
  Exists (fun d => local_mount d = None) (InstanceDef.network_storage def) ->
  setup_nfs_exports cfg resolve get_pid sed_selects w
  = (inl (KeyError "local_mount"), w).
Proof.
  intros PC HP G B.
  assert (E : export_mounts cfg resolve get_pid = inl (KeyError "local_mount")).
  { unfold export_mounts. rewrite PC. cbn [rbind].
    apply partition_loop_missing.
    - intros p d I.
      destruct (partition_view cfg resolve get_pid p) as [e|[e' i']] eqn:V;
        [left|right; eauto].
      unfold partition_view, prepare_network_mounts in V.
      destruct (resolved_mounts cfg resolve get_pid (p ++ "-n") "compute")
        as [e0|m] eqn:RM; cbn [rbind] in V; [|discriminate V].
      injection V as <-.
      destruct (resolved_mounts_raises _ _ _ RM) as [->|[N _]]; [reflexivity|].
      rewrite (HP p d I) in N. apply get_none_iff in N. exfalso. apply N.
      change p with (fst (p, d)). now apply in_map.
    - exists pid, def. split; [now apply get_some_in|].
      apply (partition_view_missing pid def); try assumption.
      apply (HP pid def). now apply get_some_in. }
  unfold setup_nfs_exports, bind, lift. now rewrite E.
Qed.

(** X8. Generating the exports only ever deletes from /etc/exports: the
    file afterwards is the file before without the lines that sed selects
    for some key of the export set, the others staying in their order; and
    generation leaves /etc/fstab and the global [mounts] as they were. *)
Theorem exports_only_delete (con_mounts : dict pathval Mount) (w : World) :
  let w' := snd (write_exports sed_selects con_mounts w) in
  etc_exports w'
  = filter
      (fun line =>
         forallb (fun p => negb (sed_selects (str p) line)) (keys con_mounts))
      (etc_exports w)
  /\ (forall line,
         In line (etc_exports w') <->
         In line (etc_exports w)
         /\ forall p, In p (keys con_mounts) -> sed_selects (str p) line = false)
  /\ etc_fstab w' = etc_fstab w
  /\ global_mounts w' = global_mounts w.
Proof.
  intros w'. subst w'. rewrite write_exports_spec. cbn [snd etc_exports
    etc_fstab global_mounts].
  split; [apply purge_filter|]. split; [|split; reflexivity].
  intros line. apply in_purge.
Qed.

End ExportPlan.

(** ** What a node mounts *)

Section NodeTable.

Import PyDict PyDictFacts.

Variable cfg : Config.
Variable resolve : string -> Path.
Variable get_pid : string -> string.

(** Of the split of a catalog, nothing that goes into [mounts] is passed
    over by the [continue] of the rendering loop. *)
Lemma rendered_all (mounts : dict Path Mount) :
  wf mounts ->
  let ext := filter (fun el => negb (internal_mount cfg el)) mounts in
  let int := filter (internal_mount cfg) mounts in
  rendered cfg (node_mounts cfg ext int) = node_mounts cfg ext int.
Proof.
  intros W ext int. unfold rendered, node_mounts.
  destruct (instance_type cfg =? "controller")%string eqn:C; cbn [negb].
  - subst ext. rewrite filter_filter. apply filter_ext.
    intros [k m]. unfold skipped, internal_mount. cbn [snd]. rewrite C.
    destruct (server_ip m =? CONTROL_MACHINE cfg)%string; reflexivity.
  - apply forallb_filter_id. apply forallb_forall. intros [k m] _.
    unfold skipped. cbn [snd]. rewrite C. now rewrite andb_false_r.
Qed.

(** X6. The [continue] of the rendering loop never fires: /etc/fstab gets
    exactly one line for each item of the global [mounts], in its order,
    so every path [mount_fstab] will wait for has its line in the table. *)
Theorem every_mount_has_its_line (ext_mounts int_mounts : dict Path Mount)
    (w : World) :
  prepare_network_mounts cfg resolve get_pid (hostname cfg) (instance_type cfg)
  = inr (ext_mounts, int_mounts) ->
  let w' := snd (setup_network_storage cfg resolve get_pid w) in
  etc_fstab w'
  = (etc_fstab w ++ nl
     ++ lines_text (map (entry_of resolve) (items (global_mounts w'))))%string
  /\ forall path,
      In path (keys (global_mounts w')) ->
      exists mount,
        get path (global_mounts w') = Some mount
        /\ In (fstab_entry resolve path mount)
             (map (entry_of resolve) (items (global_mounts w'))).
Proof.
  intros P w'. subst w'.
  rewrite (setup_network_storage_spec _ _ _ _ _ w P).
  cbn [snd etc_fstab global_mounts].
  unfold prepare_network_mounts in P.
  destruct (resolved_mounts cfg resolve get_pid (hostname cfg)
              (instance_type cfg)) as [e|mounts] eqn:R;
    cbn [rbind] in P; [discriminate P|].
  pose proof (resolved_mounts_wf _ _ _ _ _ _ R) as W.
  rewrite (locality_filter _ _ W) in P. injection P as <- <-.
  rewrite (rendered_all mounts W). split; [reflexivity|].
  intros path I. apply in_keys_get in I. destruct I as [mount G].
  exists mount. split; [exact G|].
  apply get_some_in in G. unfold items.
  change (fstab_entry resolve path mount)
    with (entry_of resolve (path, mount)).
  now apply in_map.
Qed.

(** X7. The global [mounts] that [setup_network_storage] leaves for
    [mount_fstab]: on the controller the catalog's records served from
    elsewhere and no other; on a node of any other role the whole catalog,
    key for key. *)
Theorem mounts_left_for_waiting (mounts : dict Path Mount) (w : World) :
  resolved_mounts cfg resolve get_pid (hostname cfg) (instance_type cfg)
  = inr mounts ->
  let w' := snd (setup_network_storage cfg resolve get_pid w) in
  (instance_type cfg = "controller" ->
   forall path mount,
     get path (global_mounts w') = Some mount <->
     get path mounts = Some mount /\ server_ip mount <> CONTROL_MACHINE cfg)
  /\ (instance_type cfg <> "controller" ->
      forall path, get path (global_mounts w') = get path mounts).
Proof.
  intros R w'. subst w'.
  pose proof (resolved_mounts_wf _ _ _ _ _ _ R) as W.
  assert (P : prepare_network_mounts cfg resolve get_pid (hostname cfg)
                (instance_type cfg)
              = inr (filter (fun el => negb (internal_mount cfg el)) mounts,
                     filter (internal_mount cfg) mounts)).
  { unfold prepare_network_mounts. rewrite R. cbn [rbind].
    now rewrite (locality_filter _ _ W). }
  rewrite (setup_network_storage_spec _ _ _ _ _ w P).
  cbn [snd global_mounts]. unfold node_mounts. split.
  - intros C. rewrite C.
    change ("controller" =? "controller")%string with true. cbn [negb].
    intros path mount. now apply get_external.
  - intros C. apply String.eqb_neq in C. rewrite C. cbn [negb].
    intros path. rewrite get_update. unfold items.
    rewrite last_value_wf by (apply wf_filter, W).
    rewrite !get_filter by exact W.
    destruct (get path mounts) as [m|]; [|reflexivity].
    destruct (internal_mount cfg (path, m)); reflexivity.
Qed.

End NodeTable.

(** ** Options that already carry the markers *)

Lemma split_not_nil (sep : ascii) (s : string) : split sep s <> [].
Proof.
  destruct s as [|c s]; simpl; [discriminate|].
  destruct (Ascii.eqb c sep); [discriminate|].
  destruct (split sep s); discriminate.
Qed.

Lemma join_split (sep : ascii) (s : string) :
  join (String sep "") (split sep s) = s.
Proof.
  unfold join. induction s as [|c s IH]; [reflexivity|].
  cbn [split]. pose proof (split_not_nil sep s) as N.
  destruct (Ascii.eqb_spec c sep) as [->|D].
  - destruct (split sep s) as [|hd tl]; [contradiction|].
    rewrite <- IH. reflexivity.
  - destruct (split sep s) as [|hd tl]; [contradiction|].
    rewrite <- IH. destruct tl; reflexivity.
Qed.

(** X9. A record whose mount_options already name _netdev (and nonempty,
    when it is a gcsfuse record) has them written into its fstab line
    letter for letter: splitting at the commas, testing for the markers
    and joining again gives the text back. *)
Theorem options_written_verbatim (mount : Mount) (options : string) :
  mount_options mount = Some options ->
  options <> "" ->
  contains "_netdev" (split "," options) = true ->
  (fs_type mount = "gcsfuse" -> contains "nonempty" (split "," options) = true) ->
  join "," (entry_options mount) = options.
Proof.
  intros MO NE ND NEm.
  assert (G : given_options mount = split "," options).
  { unfold given_options. rewrite MO.
    apply String.eqb_neq in NE. now rewrite NE. }
  unfold entry_options. rewrite G.
  pose proof (split_not_nil "," options) as NN.
  destruct (split "," options) as [|hd tl] eqn:S; [contradiction|].
  cbn [orb]. rewrite ND. cbn [negb].
  destruct (String.eqb_spec (fs_type mount) "gcsfuse") as [F|F].
  - rewrite (NEm F). cbn [negb]. rewrite <- S. apply join_split.
  - rewrite <- S. apply join_split.
Qed.

(** ** The secondary disk: [setup_secondary_disks] *)

Definition dirs_secdisk : Path := "/mnt/disks/sec".

(** The line for /dev/sdb, as formatted; the write puts a newline before
    it and none after. *)
Definition secondary_disk_entry : string :=
  "/dev/sdb     " ++ dirs_secdisk
  ++ "     ext4    discard,defaults,nofail     0 2".

Definition mkfs_command : string :=
  "sudo mkfs.ext4 -m 0 -F -E lazy_itable_init=0,lazy_journal_init=0,discard /dev/sdb".

Definition setup_secondary_disks : M unit :=
  let! _ := run mkfs_command in
  let! _ := mkdirp dirs_secdisk in
  fstab_write (nl ++ secondary_disk_entry).

Section ControllerTable.

Import PyDict PyDictFacts.

Variable cfg : Config.
Variable resolve : string -> Path.
Variable get_pid : string -> string.

(** The statements of [setup_controller] that write /etc/fstab:
    [if cfg.controller_secondary_disk: setup_secondary_disks()] and then
    [setup_network_storage()]. The flag is the attribute of [cfg]. *)
Definition controller_tables (controller_secondary_disk : bool) : M unit :=
  let! _ :=
    (if controller_secondary_disk then setup_secondary_disks else ret tt) in
  setup_network_storage cfg resolve get_pid.

(** X10. With a secondary disk, the controller's /etc/fstab ends up as
    its former content, a newline, the /dev/sdb line, a newline, and then
    the network mounts each closed by a newline: the /dev/sdb line, which
    [setup_secondary_disks] leaves unterminated, is closed by the newline
    [setup_network_storage] writes first. The disk is formatted before
    anything else is done. *)
Theorem secondary_disk_line_closed (ext_mounts int_mounts : dict Path Mount)
    (w : World) :
  prepare_network_mounts cfg resolve get_pid (hostname cfg) (instance_type cfg)
  = inr (ext_mounts, int_mounts) ->
  let w' := snd (controller_tables true w) in
  fst (controller_tables true w) = inr tt
  /\ etc_fstab w'
     = (etc_fstab w ++ nl ++ secondary_disk_entry ++ nl
        ++ lines_text
             (map (entry_of resolve)
                (rendered cfg (node_mounts cfg ext_mounts int_mounts))))%string
  /\ etc_fstab (snd (setup_secondary_disks w))
     = (etc_fstab w ++ nl ++ secondary_disk_entry)%string
  /\ exists later,
      calls w' = calls w ++ Run mkfs_command :: Mkdirp dirs_secdisk :: later.
Proof.
  intros P w'. subst w'. unfold controller_tables, bind at 1.
  unfold setup_secondary_disks, bind, run, mkdirp, fstab_write.
  cbn [fst snd etc_fstab].
  rewrite (setup_network_storage_spec cfg resolve get_pid _ _ _ P).
  cbn [fst snd etc_fstab calls].
  split; [reflexivity|]. split; [|split; [reflexivity|]].
  - now rewrite !append_assoc.
  - eexists. rewrite <- !app_assoc. cbn [app]. reflexivity.
Qed.

(** X11. A record without local_mount is found out only after the disk
    has been dealt with: [controller_tables] then raises
    [KeyError('local_mount')] with /dev/sdb formatted and its line already
    appended to /etc/fstab, and no network mount written. *)
Theorem disk_formatted_before_config_error (R : list Mount) (w : World) :
  role_network_storage cfg get_pid (hostname cfg) (instance_type cfg) = inr R ->
  Exists (fun d => local_mount d = None) (network_storage cfg)
  \/ Exists (fun d => local_mount d = None) R ->
  let w' := snd (controller_tables true w) in
  fst (controller_tables true w) = inl (KeyError "local_mount")
  /\ etc_fstab w' = (etc_fstab w ++ nl ++ secondary_disk_entry)%string
  /\ calls w' = calls w ++ [Run mkfs_command; Mkdirp dirs_secdisk]
  /\ fst (controller_tables false w) = inl (KeyError "local_mount")
  /\ snd (controller_tables false w) = w.
Proof.
  intros HR Bad w'. subst w'.
  assert (E : prepare_network_mounts cfg resolve get_pid (hostname cfg)
                (instance_type cfg) = inl (KeyError "local_mount")).
  { unfold prepare_network_mounts.
    destruct (resolved_mounts cfg resolve get_pid (hostname cfg)
                (instance_type cfg)) as [e|mounts] eqn:RM; cbn [rbind].
    - destruct (resolved_mounts_raises _ _ _ _ _ _ RM) as [->|[N [_ C]]];
        [reflexivity|].
      exfalso. unfold role_network_storage, getitem in HR.
      rewrite C in HR. change ("compute" =? "compute")%string with true in HR.
      cbn iota in HR. rewrite N in HR. discriminate HR.
    - exfalso. revert RM. unfold resolved_mounts.
      destruct (listtodict resolve (network_storage cfg)) as [e0|g] eqn:LG;
        cbn [rbind]; [discriminate|].
      destruct Bad as [B|B].
      { rewrite (listtodict_missing _ _ B) in LG. discriminate LG. }
      unfold role_network_storage in HR.
      destruct (instance_type cfg =? "compute")%string.
      + destruct (getitem (get_pid (hostname cfg)) (instance_defs cfg))
          as [e1|def]; cbn [rbind] in *; [discriminate|].
        injection HR as <-. rewrite (listtodict_missing _ _ B). discriminate.
      + injection HR as <-. rewrite (listtodict_missing _ _ B). discriminate. }
  unfold controller_tables, bind at 1.
  unfold setup_secondary_disks, bind, run, mkdirp, fstab_write, ret,
    setup_network_storage, lift, bind.
  rewrite E. cbn [fst snd etc_fstab calls].
  repeat split. now rewrite <- app_assoc.
Qed.

End ControllerTable.

From Stdlib Require Import ZArith DecimalString.

(** ** Waiting for the GPU driver: the loop of [setup_compute] *)

Module GpuWait.
Import ITreeNotations.
Local Open Scope itree_scope.

(** What the loop asks of the node. *)
Variant gpuE : Type -> Type :=
| NvidiaSmi : gpuE Z                  (* [util.run("nvidia-smi").returncode] *)
| LogInfo (msg : string) : gpuE unit  (* [log.info] *)
| Sleep (seconds : nat) : gpuE unit.  (* [time.sleep] *)

(** [f"Nvidia driver not yet loaded, try {k}"] *)
Definition try_message (k : nat) : string :=
  "Nvidia driver not yet loaded, try "
  ++ NilEmpty.string_of_uint (Nat.to_uint k).

(** One turn of [while util.run("nvidia-smi").returncode != 0 and n > 0]:
    the command is run before [n] is looked at. *)
Definition nvidia_wait_body (retries n : nat) : itree gpuE (nat + unit) :=
  returncode <- ITree.trigger NvidiaSmi ;;
  if negb (returncode =? 0)%Z && (0 <? n)%nat then
    let n := n - 1 in
    ITree.trigger (LogInfo (try_message (retries - n))) ;;
    ITree.trigger (Sleep 5) ;;
    Ret (inl n)
  else Ret (inr tt).

(** [retries = n = 50] and the loop. *)
Definition nvidia_wait : itree gpuE unit :=
  let retries := 50 in
  ITree.iter (nvidia_wait_body retries) retries.

Inductive event : Type :=
| Smi (returncode : Z)
| Logged (msg : string)
| Slept (seconds : nat).

Record Node : Type := { runs : nat; journal : list event }.

(** The node: [returncode k] is what the run number [k] of nvidia-smi
    returns. *)
Definition h_gpu (returncode : nat -> Z)
  : gpuE ~> Monads.stateT Node (itree void1) :=
  fun _ e s =>
    match e with
    | NvidiaSmi =>
        Ret ({| runs := S (runs s);
                journal := journal s ++ [Smi (returncode (runs s))] |},
             returncode (runs s))
    | LogInfo msg =>
        Ret ({| runs := runs s; journal := journal s ++ [Logged msg] |}, tt)
    | Sleep seconds =>
        Ret ({| runs := runs s; journal := journal s ++ [Slept seconds] |}, tt)
    end.

(** What a failed run leaves in the journal: run number [j], counted
    from nought, is try number [j + 1]. *)
Definition failed_try (returncode : nat -> Z) (j : nat) : list event :=
  [Smi (returncode j); Logged (try_message (S j)); Slept 5].

Definition failed_tries (returncode : nat -> Z) (k : nat) : list event :=
  flat_map (failed_try returncode) (seq 0 k).

Definition booted : Node := {| runs := 0; journal := [] |}.

Section Runs.

Variable returncode : nat -> Z.
Variable retries : nat.

Lemma nvidia_wait_turn (n : nat) (s : Node) :
  interp_state (h_gpu returncode) (ITree.iter (nvidia_wait_body retries) n) s
  ≈ (if negb (returncode (runs s) =? 0)%Z && (0 <? n)%nat
     then interp_state (h_gpu returncode)
            (ITree.iter (nvidia_wait_body retries) (n - 1))
            {| runs := S (runs s);
               journal := journal s
                          ++ [Smi (returncode (runs s));
                              Logged (try_message (retries - (n - 1)));
                              Slept 5] |}
     else Ret ({| runs := S (runs s);
                  journal := journal s ++ [Smi (returncode (runs s))] |}, tt)).
Proof.
  rewrite unfold_iter at 1. unfold nvidia_wait_body at 1.
  rewrite bind_bind, interp_state_bind, interp_state_trigger.
  cbn -[try_message Nat.sub Nat.ltb Z.eqb].
  rewrite bind_ret_l. cbn -[try_message Nat.sub Nat.ltb Z.eqb].
  destruct (negb (returncode (runs s) =? 0)%Z && (0 <? n)%nat).
  - rewrite !bind_bind.
    rewrite interp_state_bind, interp_state_trigger.
    cbn -[try_message Nat.sub Nat.ltb Z.eqb].
    rewrite bind_ret_l. cbn -[try_message Nat.sub Nat.ltb Z.eqb].
    rewrite bind_bind, interp_state_bind, interp_state_trigger.
    cbn -[try_message Nat.sub Nat.ltb Z.eqb].
    rewrite bind_ret_l. cbn -[try_message Nat.sub Nat.ltb Z.eqb].
    rewrite bind_ret_l. cbn -[try_message Nat.sub Nat.ltb Z.eqb].
    rewrite interp_state_tau, tau_eutt.
    rewrite <- !app_assoc. reflexivity.
  - rewrite bind_ret_l. rewrite interp_state_ret. reflexivity.
Qed.

(** The journal of [k] failed turns from counter [n] and run [r] on. *)
Fixpoint turns (n r k : nat) : list event :=
  match k with
  | 0 => []
  | S k' =>
      [Smi (returncode r); Logged (try_message (retries - (n - 1))); Slept 5]
      ++ turns (n - 1) (S r) k'
  end.

Lemma nvidia_wait_from (k n : nat) (s : Node) :
  k <= n ->
  (forall j, j < k -> returncode (runs s + j) <> 0%Z) ->
  returncode (runs s + k) = 0%Z \/ k = n ->
  interp_state (h_gpu returncode) (ITree.iter (nvidia_wait_body retries) n) s
  ≈ Ret ({| runs := S (runs s + k);
            journal := journal s ++ turns n (runs s) k
                       ++ [Smi (returncode (runs s + k))] |}, tt).
Proof.
  revert n s. induction k as [|k IH]; intros n s L F Z.
  - rewrite nvidia_wait_turn. rewrite Nat.add_0_r in *.
    assert (C : negb (returncode (runs s) =? 0)%Z && (0 <? n)%nat = false).
    { destruct Z as [Z| <-]; [rewrite Z|]; [reflexivity|apply andb_false_r]. }
    rewrite C. reflexivity.
  - rewrite nvidia_wait_turn.
    assert (C : negb (returncode (runs s) =? 0)%Z && (0 <? n)%nat = true).
    { apply andb_true_intro. split.
      - apply negb_true_iff, Z.eqb_neq.
        rewrite <- (Nat.add_0_r (runs s)). apply F. lia.
      - apply Nat.ltb_lt. lia. }
    rewrite C. rewrite IH.
    + cbn [runs journal turns].
      rewrite <- Nat.add_succ_comm, <- !app_assoc. reflexivity.
    + lia.
    + intros j Lj. cbn [runs]. rewrite Nat.add_succ_comm. apply F. lia.
    + cbn [runs]. rewrite Nat.add_succ_comm.
      destruct Z as [Z|Z]; [now left|right; lia].
Qed.

Lemma turns_failed_tries (k j : nat) :
  j + k <= retries ->
  turns (retries - j) j k = flat_map (failed_try returncode) (seq j k).
Proof.
  revert j. induction k as [|k IH]; intros j L; [reflexivity|].
  cbn [turns seq flat_map]. unfold failed_try at 1.
  replace (retries - (retries - j - 1)) with (S j) by lia.
  replace (retries - j - 1) with (retries - S j) by lia.
  rewrite IH by lia. reflexivity.
Qed.

Lemma first_success (n : nat) :
  exists k, k <= n
            /\ (forall j, j < k -> returncode j <> 0%Z)
            /\ (returncode k = 0%Z \/ k = n).
Proof.
  induction n as [|n [k [L [F Z]]]].
  - exists 0. split; [lia|]. split; [intros j Lj; lia|now right].
  - destruct (Z.eq_dec (returncode k) 0) as [E|N].
    + exists k. split; [lia|]. split; [exact F|now left].
    + destruct Z as [Z|Z]; [contradiction|]. subst k.
      exists (S n). split; [lia|]. split; [|now right].
      intros j Lj. destruct (Nat.eq_dec j n) as [->|D]; [exact N|].
      apply F. lia.
Qed.

End Runs.

(** X12. If nvidia-smi fails on its first k runs and succeeds on the next,
    with k at most 50, the loop returns after exactly those k+1 runs, having
    logged the tries 1 to k in order and slept 5 seconds after each. *)
Theorem driver_loaded_at_run (returncode : nat -> Z) (k : nat) :
  k <= 50 ->
  (forall j, j < k -> returncode j <> 0%Z) ->
  returncode k = 0%Z ->
  interp_state (h_gpu returncode) nvidia_wait booted
  ≈ Ret ({| runs := S k;
            journal := failed_tries returncode k ++ [Smi 0%Z] |}, tt).
Proof.
  intros L F Z. unfold nvidia_wait.
  rewrite (nvidia_wait_from returncode 50 k 50 booted L F (or_introl Z)).
  cbn [runs journal booted Nat.add app]. unfold failed_tries.
  rewrite <- (turns_failed_tries returncode 50 k 0) by lia.
  rewrite Z. reflexivity.
Qed.

(** X13. The loop is bounded whatever the node does: it always returns,
    normally, after at most 51 runs of nvidia-smi and at most 50 sleeps of
    5 seconds; it stops at the first run that succeeds, and when the first
    50 runs fail it gives up after one more run, whose outcome it ignores,
    and lets the setup go on. *)
Theorem nvidia_wait_bounded (returncode : nat -> Z) :
  exists k,
    k <= 50
    /\ (forall j, j < k -> returncode j <> 0%Z)
    /\ (returncode k = 0%Z \/ k = 50)
    /\ interp_state (h_gpu returncode) nvidia_wait booted
       ≈ Ret ({| runs := S k;
                 journal := failed_tries returncode k
                            ++ [Smi (returncode k)] |}, tt).
Proof.
  destruct (first_success returncode 50) as [k [L [F Z]]].
  exists k. split; [exact L|]. split; [exact F|]. split; [exact Z|].
  unfold nvidia_wait.
  rewrite (nvidia_wait_from returncode 50 k 50 booted L F Z).
  cbn [runs journal booted Nat.add app]. unfold failed_tries.
  rewrite <- (turns_failed_tries returncode 50 k 0) by lia.
  reflexivity.
Qed.

(** The driver answers from the third run on. *)
Definition third_run (j : nat) : Z := if Nat.leb 2 j then 0%Z else 1%Z.

Lemma driver_loaded_at_run_witness :
  2 <= 50
  /\ (forall j, j < 2 -> third_run j <> 0%Z)
  /\ third_run 2 = 0%Z
  /\ interp_state (h_gpu third_run) nvidia_wait booted
     ≈ Ret ({| runs := 3;
               journal := failed_tries third_run 2 ++ [Smi 0%Z] |}, tt).
Proof.
  assert (L : 2 <= 50) by lia.
  assert (F : forall j, j < 2 -> third_run j <> 0%Z).
  { intros j Lj. destruct j as [|[|j]]; [discriminate|discriminate|lia]. }
  split; [exact L|]. split; [exact F|]. split; [reflexivity|].
  exact (driver_loaded_at_run third_run 2 L F eq_refl).
Defined.

End GpuWait.

(** ** Machine shapes: [expand_instance_templates], [expand_machine_type] *)

Module Machines.
Import PyDict PyDictFacts.
Local Open Scope Z_scope.

(** An entry of [cfg.instance_defs], with the attributes these two
    functions read and set. An attribute that is [None], an empty string
    or zero counts as unset. *)
Record Part : Type := {
  instance_template : option string;
  machine_type : option string;
  gpu_count : option Z;
  gpu_type : option string;
  regional_capacity : bool;
  region : string;
  zone : string;
  image_hyperthreads : bool
}.

(** Python truth of an attribute. *)
Definition set_str (o : option string) : bool :=
  match o with Some s => negb (s =? "")%string | None => false end.

Definition set_int (o : option Z) : bool :=
  match o with Some n => negb (n =? 0) | None => false end.

(** The fields read from the Compute API. *)
Record Accelerator : Type := {
  acceleratorCount : Z;
  acceleratorType : string
}.

Record TemplateProps : Type := {
  machineType : string;
  guestAccelerators : option (list Accelerator)  (* the key may be absent *)
}.

Record MachineType : Type := { guestCpus : Z; memoryMb : Z }.

(** The entry of [machines] for one partition. *)
Record Machine : Type := { cpus : Z; memory : Z }.

Inductive api_exn : Type :=
| IndexError.

(** [a in b] on strings. *)
Definition substring_in (a b : string) : bool :=
  match String.index 0 a b with Some _ => true | None => false end.

Section Api.

(** [instanceTemplates().get], through [util.ensure_execute]: the
    [properties] of the template, or nothing. *)
Variable instanceTemplates_get : string -> option TemplateProps.

(** [machineTypes().get] for a zone and a machine type. *)
Variable machineTypes_get : string -> string -> option MachineType.

(** [machineTypes().aggregatedList] for a filter: the [items] of the
    answer when it has any, each zone with its [machineTypes] when it has
    any. *)
Variable machineTypes_aggregatedList :
  string -> option (dict string (option (list MachineType))).

(** The body of the loop of [expand_instance_templates] for one entry: the
    entry as it is left, and the exception if [guestAccelerators] is an
    empty list. *)
Definition expand_template (instance_def : Part) : Part * option api_exn :=
  if set_str (instance_template instance_def)
     && (negb (set_str (machine_type instance_def))
         || negb (set_int (gpu_count instance_def)))
  then
    match instanceTemplates_get
            (match instance_template instance_def with
             | Some t => t | None => ""%string end) with
    | Some template_props =>
        let instance_def :=
          if negb (set_str (machine_type instance_def)) then
            {| instance_template := instance_template instance_def;
               machine_type := Some (machineType template_props);
               gpu_count := gpu_count instance_def;
               gpu_type := gpu_type instance_def;
               regional_capacity := regional_capacity instance_def;
               region := region instance_def;
               zone := zone instance_def;
               image_hyperthreads := image_hyperthreads instance_def |}
          else instance_def in
        if negb (set_int (gpu_count instance_def)) then
          match guestAccelerators template_props with
          | Some (accel_props :: _) =>
              ({| instance_template := instance_template instance_def;
                  machine_type := machine_type instance_def;
                  gpu_count := Some (acceleratorCount accel_props);
                  gpu_type := Some (acceleratorType accel_props);
                  regional_capacity := regional_capacity instance_def;
                  region := region instance_def;
                  zone := zone instance_def;
                  image_hyperthreads := image_hyperthreads instance_def |},
               None)
          | Some [] => (instance_def, Some IndexError)
          | None => (instance_def, None)
          end
        else (instance_def, None)
    | None => (instance_def, None)
    end
  else (instance_def, None).

(** [expand_instance_templates]: [cfg.instance_defs] as the loop leaves
    it, and the exception that cut the loop short, if any. *)
Fixpoint expand_instance_templates (instance_defs : list (string * Part))
  : list (string * Part) * option api_exn :=
  match instance_defs with
  | [] => ([], None)
  | (pid, instance_def) :: rest =>
      match expand_template instance_def with
      | (instance_def', Some e) => ((pid, instance_def') :: rest, Some e)
      | (instance_def', None) =>
          let (rest', e) := expand_instance_templates rest in
          ((pid, instance_def') :: rest', e)
      end
  end.

(** The inner loop of [expand_machine_type] over [zone_types.items()]:
    it stops at the first zone whose name contains the region and which
    lists machine types, and takes the first of them. *)
Fixpoint first_zone_type (region : string)
    (zone_types : list (string * option (list MachineType)))
  : api_exn + option MachineType :=
  match zone_types with
  | [] => inr None
  | (k, v) :: rest =>
      match substring_in region k, v with
      | true, Some (type_resp :: _) => inr (Some type_resp)
      | true, Some [] => inl IndexError
      | _, _ => first_zone_type region rest
      end
  end.

(** [{'cpus': ..., 'memory': ...}] from a machine type of the API. *)
Definition sized (part : Part) (type_resp : MachineType) : Machine :=
  let cpus := guestCpus type_resp in
  let gb := memoryMb type_resp / 1024 in
  {| cpus := cpus / (if image_hyperthreads part then 1 else 2);
     memory := memoryMb type_resp - (400 + (gb * 30)) |}.

Definition default_machine : Machine := {| cpus := 1; memory := 1 |}.

(** The body of the loop of [expand_machine_type] for one partition. *)
Definition machine_of (part : Part) : api_exn + Machine :=
  if negb (set_str (machine_type part)) then inr default_machine
  else
    let name := match machine_type part with
                | Some t => t | None => ""%string end in
    let type_resp :=
      if regional_capacity part then
        let filter :=
          ("(zone=" ++ region part ++ "-*) AND (name=" ++ name ++ ")")%string in
        match machineTypes_aggregatedList filter with
        | Some zone_types => first_zone_type (region part) (items zone_types)
        | None => inr None
        end
      else inr (machineTypes_get (zone part) name) in
    match type_resp with
    | inl e => inl e
    | inr (Some type_resp) => inr (sized part type_resp)
    | inr None => inr default_machine
    end.

(** [expand_machine_type]: the dictionary [machines]. *)
Fixpoint machine_loop (instance_defs : list (string * Part))
    (machines : dict string Machine) : api_exn + dict string Machine :=
  match instance_defs with
  | [] => inr machines
  | (pid, part) :: rest =>
      match machine_of part with
      | inl e => inl e
      | inr machine => machine_loop rest (set pid machine machines)
      end
  end.

Definition expand_machine_type (instance_defs : dict string Part)
  : api_exn + dict string Machine :=
  machine_loop (items instance_defs) [].

(** What [expand_instance_templates] may do to an entry. *)
Definition filled_in (before after : Part) : Prop :=
  instance_template after = instance_template before
  /\ regional_capacity after = regional_capacity before
  /\ region after = region before
  /\ zone after = zone before
  /\ image_hyperthreads after = image_hyperthreads before
  /\ (set_str (machine_type before) = true ->
      machine_type after = machine_type before)
  /\ (set_int (gpu_count before) = true ->
      gpu_count after = gpu_count before /\ gpu_type after = gpu_type before)
  /\ (set_str (instance_template before) = false -> after = before).

(** Case analysis on an entry and on what the API answers for it. *)
Ltac by_cases d :=
  destruct d as [[[|? ?]|] [[|? ?]|] [[|?|?]|] ? ? ? ? ?];
  unfold expand_template; cbn;
  try reflexivity;
  try match goal with
  | |- context [instanceTemplates_get ?t] =>
      let A := fresh "A" in
      destruct (instanceTemplates_get t)
        as [[[|? ?] [[|[[|?|?] ?] ?]|]]|] eqn:A;
      cbn; rewrite ?A; cbn; try reflexivity
  end.

Lemma expand_template_filled_in (d : Part) :
  filled_in d (fst (expand_template d)).
Proof.
  unfold filled_in.
  by_cases d; repeat split; intros; try reflexivity; try discriminate.
Qed.

Lemma expand_template_again (d : Part) :
  expand_template (fst (expand_template d)) = expand_template d.
Proof. by_cases d. Qed.

(** X14. Run a second time over what it left, with the API answering as
    before, [expand_instance_templates] changes nothing more and ends the
    same way: an entry it has filled in is left alone or filled in with the
    same values. *)
Theorem expand_instance_templates_again (instance_defs : list (string * Part)) :
  expand_instance_templates (fst (expand_instance_templates instance_defs))
  = expand_instance_templates instance_defs.
Proof.
  induction instance_defs as [|[pid d] rest IH]; [reflexivity|].
  cbn [expand_instance_templates].
  pose proof (expand_template_again d) as A.
  destruct (expand_template d) as [d' [e|]] eqn:E; cbn [fst] in *.
  - cbn [expand_instance_templates]. rewrite A. reflexivity.
  - destruct (expand_instance_templates rest) as [rest' e] eqn:R.
    cbn [fst] in *. cbn [expand_instance_templates]. rewrite A, IH.
    reflexivity.
Qed.

(** X15. [expand_instance_templates] keeps the partitions and their order,
    and only fills in what is unset: a machine_type that is set stays, a
    gpu_count that is set stays together with its gpu_type, the other
    attributes are never written, and an entry without instance_template is
    left exactly as it was. This holds also when the loop is cut short. *)
Theorem expand_instance_templates_fills_in
    (instance_defs : list (string * Part)) :
  Forall2
    (fun before after =>
       fst after = fst before /\ filled_in (snd before) (snd after))
    instance_defs (fst (expand_instance_templates instance_defs)).
Proof.
  assert (Same : forall d, filled_in d d).
  { intros d. unfold filled_in. repeat split; reflexivity. }
  induction instance_defs as [|[pid d] rest IH]; [constructor|].
  cbn [expand_instance_templates].
  pose proof (expand_template_filled_in d) as F.
  destruct (expand_template d) as [d' [e|]]; cbn [fst] in *.
  - constructor; [now split|].
    clear. induction rest as [|x rest IH]; constructor; auto.
    split; [reflexivity|]. unfold filled_in. repeat split; reflexivity.
  - destruct (expand_instance_templates rest) as [rest' e].
    cbn [fst] in *. constructor; [now split|exact IH].
Qed.

Lemma machine_loop_spec (instance_defs : list (string * Part))
    (acc machines : dict string Machine) :
  NoDup (keys acc ++ map fst instance_defs) ->
  machine_loop instance_defs acc = inr machines ->
  exists ms,
    machines = (acc ++ ms)%list
    /\ Forall2
         (fun pd pm => fst pm = fst pd /\ machine_of (snd pd) = inr (snd pm))
         instance_defs ms.
Proof.
  revert acc. induction instance_defs as [|[pid part] rest IH]; intros acc N L.
  - cbn in L. injection L as <-. exists []. split; [|constructor].
    now rewrite app_nil_r.
  - cbn [machine_loop] in L.
    destruct (machine_of part) as [e|m] eqn:MO; [discriminate L|].
    assert (F : get pid acc = None).
    { apply get_none_iff. cbn [map fst] in N. apply NoDup_remove_2 in N.
      intros I. apply N, in_or_app. now left. }
    rewrite (set_fresh _ _ _ F) in L.
    destruct (IH (acc ++ [(pid, m)])%list) as [ms [E F2]]; [|exact L|].
    { unfold keys. rewrite map_app, <- app_assoc. exact N. }
    exists ((pid, m) :: ms). split.
    + rewrite E, <- app_assoc. reflexivity.
    + constructor; [now split|exact F2].
Qed.

(** X16. When [expand_machine_type] returns, [machines] has one entry for
    each partition, under the same keys in the same order, holding what the
    loop body computed for it; a partition without machine_type gets the
    default of one cpu and one unit of memory. *)
Theorem machines_for_every_partition (instance_defs : dict string Part)
    (machines : dict string Machine) :
  wf instance_defs ->
  expand_machine_type instance_defs = inr machines ->
  keys machines = keys instance_defs
  /\ Forall2
       (fun pd pm => machine_of (snd pd) = inr (snd pm)
                     /\ (set_str (machine_type (snd pd)) = false ->
                         snd pm = default_machine))
       (items instance_defs) (items machines).
Proof.
  intros W E. unfold expand_machine_type in E.
  destruct (machine_loop_spec (items instance_defs) [] machines W E)
    as [ms [-> F]]. cbn [app].
  unfold items in *. split.
  - unfold keys. clear -F. induction F as [|pd pm l l' [A _] F IH];
      [reflexivity|]. cbn [map]. now rewrite A, IH.
  - clear -F. induction F as [|pd pm l l' [_ A] F IH]; constructor; [|exact IH].
    split; [exact A|]. intros U. unfold machine_of in A. rewrite U in A.
    cbn [negb] in A. now injection A as <-.
Qed.


(** X20. A regional lookup settles on the first zone whose name contains
    the region and which lists machine types, whatever comes after it: it
    takes the first machine type listed there, and raises [IndexError]
    when that list is empty instead of going on to the next zone. *)
Theorem regional_lookup_first_zone (region k : string)
    (before rest : list (string * option (list MachineType)))
    (types : list MachineType) :
  Forall (fun kv => substring_in region (fst kv) = false \/ snd kv = None)
    before ->
  substring_in region k = true ->
  first_zone_type region (before ++ (k, Some types) :: rest)
  = match types with
    | [] => inl IndexError
    | type_resp :: _ => inr (Some type_resp)
    end.
Proof.
  intros F S. induction F as [|[k0 v0] before [H|H] F IH];
    cbn [app first_zone_type fst snd] in *.
  - rewrite S. now destruct types.
  - rewrite H. exact IH.
  - rewrite H. destruct (substring_in region k0); exact IH.
Qed.

End Api.

(** X18. The memory reported for a machine type of [memoryMb] megabytes
    (not negative) is less than [memoryMb] by 400 and 30 for every full
    1024: it is positive exactly when [memoryMb] exceeds 400, and what is
    held back is at least 400 and at most 400 plus 30/1024 of
    [memoryMb]. *)
Theorem memory_held_back (part : Part) (type_resp : MachineType) :
  0 <= memoryMb type_resp ->
  let reported := memory (sized part type_resp) in
  reported = memoryMb type_resp - 400 - 30 * (memoryMb type_resp / 1024)
  /\ (0 < reported <-> 400 < memoryMb type_resp)
  /\ 400 <= memoryMb type_resp - reported
  /\ 1024 * (memoryMb type_resp - reported - 400) <= 30 * memoryMb type_resp.
Proof.
  intros P reported. subst reported. unfold sized. cbn [memory].
  pose proof (Z.div_mod (memoryMb type_resp) 1024 ltac:(lia)) as D.
  pose proof (Z.mod_pos_bound (memoryMb type_resp) 1024 ltac:(lia)) as B.
  pose proof (Z.div_pos (memoryMb type_resp) 1024 P ltac:(lia)) as Q.
  repeat split; lia.
Qed.

(** X19. The cpus reported for a machine type of [guestCpus] virtual cpus
    (not negative): all of them when the image runs hyperthreads, half of
    them rounded down when it does not, which is none at all for a machine
    type with a single virtual cpu. *)
Theorem cpus_halved (part : Part) (type_resp : MachineType) :
  0 <= guestCpus type_resp ->
  let reported := cpus (sized part type_resp) in
  (image_hyperthreads part = true -> reported = guestCpus type_resp)
  /\ (image_hyperthreads part = false ->
      2 * reported <= guestCpus type_resp < 2 * reported + 2
      /\ (reported = 0 <-> guestCpus type_resp < 2)).
Proof.
  intros P reported. subst reported. unfold sized. cbn [cpus]. split.
  - intros ->. apply Z.div_1_r.
  - intros ->.
    pose proof (Z.div_mod (guestCpus type_resp) 2 ltac:(lia)) as D.
    pose proof (Z.mod_pos_bound (guestCpus type_resp) 2 ltac:(lia)) as B.
    repeat split; lia.
Qed.

End Machines.

(** ** The further properties at the sample cluster *)

Lemma catalog_iteration_order_witness :
  resolved_mounts cfg_sample same_path only_partition
    (hostname cfg_sample) (instance_type cfg_sample) = inr sample_catalog
  /\ exists rest, PyDict.keys sample_catalog = default_mounts ++ rest.
Proof.
  split; [reflexivity|].
  exact (proj2 (catalog_iteration_order cfg_sample same_path only_partition
                  (hostname cfg_sample) (instance_type cfg_sample)
                  sample_catalog eq_refl)).
Defined.

Lemma prepare_network_mounts_keeps_order_witness :
  prepare_network_mounts cfg_sample same_path only_partition
    "c-controller" "controller"
  = inr ([("/apps", apps_override); ("/data", bucket_mount)],
         [("/home", Config_with (CONTROL_NFS cfg_sample) "/home");
          ("/mnt/disks/sec/apps",
           Config_with (CONTROL_NFS cfg_sample) "/mnt/disks/sec/apps")])
  /\ exists mounts,
      resolved_mounts cfg_sample same_path only_partition
        "c-controller" "controller" = inr mounts.
Proof.
  split; [reflexivity|].
  destruct (prepare_network_mounts_keeps_order cfg_sample same_path
              only_partition "c-controller" "controller" _ _ eq_refl)
    as [mounts [R _]].
  now exists mounts.
Defined.

(** A node name that belongs to no partition of the cluster. *)
Definition stray_partition (_ : string) : string := "c-compute-9".

Lemma compute_node_of_unknown_partition_witness :
  Forall has_local_mount (network_storage cfg_sample)
  /\ PyDict.get (stray_partition "c-compute-9-0") (instance_defs cfg_sample)
     = None
  /\ prepare_network_mounts cfg_sample same_path stray_partition
       "c-compute-9-0" "compute" = inl (KeyError "c-compute-9").
Proof.
  assert (F : Forall has_local_mount (network_storage cfg_sample)).
  { repeat constructor. discriminate. }
  split; [exact F|]. split; [reflexivity|].
  exact (compute_node_of_unknown_partition cfg_sample same_path
           stray_partition "c-compute-9-0" F eq_refl).
Defined.

Lemma export_planning_succeeds_witness :
  role_network_storage cfg_sample only_partition (hostname cfg_sample)
    (instance_type cfg_sample) = inr [bucket_mount]
  /\ Forall has_local_mount (network_storage cfg_sample)
  /\ Forall has_local_mount [bucket_mount]
  /\ Forall
       (fun pd => only_partition (fst pd ++ "-n") = fst pd
                  /\ Forall has_local_mount
                       (InstanceDef.network_storage (snd pd)))
       (PyDict.items (instance_defs cfg_sample))
  /\ exists con, export_mounts cfg_sample same_path only_partition = inr con.
Proof.
  assert (FG : Forall has_local_mount (network_storage cfg_sample)).
  { repeat constructor. discriminate. }
  assert (FR : Forall has_local_mount [bucket_mount]).
  { repeat constructor. discriminate. }
  assert (FD : Forall
                 (fun pd => only_partition (fst pd ++ "-n") = fst pd
                            /\ Forall has_local_mount
                                 (InstanceDef.network_storage (snd pd)))
                 (PyDict.items (instance_defs cfg_sample))).
  { repeat constructor. discriminate. }
  split; [reflexivity|]. split; [exact FG|]. split; [exact FR|].
  split; [exact FD|].
  destruct (export_planning_succeeds cfg_sample same_path only_partition
              sed_literal [bucket_mount] fresh_node eq_refl FG FR FD)
    as [con [E _]].
  now exists con.
Defined.

(** The sample cluster with a faulty record in its partition. *)
Definition cfg_bad_partition : Config := {|
  cluster_name := "c";
  hostname := "c-controller";
  instance_type := "controller";
  network_storage := [apps_override];
  login_network_storage := [];
  instance_defs :=
    [("c-compute-0", {| InstanceDef.network_storage := [no_local_mount] |})]
|}.

Lemma bad_partition_stops_exports_witness :
  (forall p d, In (p, d) (PyDict.items (instance_defs cfg_bad_partition)) ->
               only_partition (p ++ "-n") = p)
  /\ Exists (fun d => local_mount d = None) [no_local_mount]
  /\ setup_nfs_exports cfg_bad_partition same_path only_partition sed_literal
       fresh_node = (inl (KeyError "local_mount"), fresh_node).
Proof.
  assert (HP : forall p d,
             In (p, d) (PyDict.items (instance_defs cfg_bad_partition)) ->
             only_partition (p ++ "-n") = p).
  { intros p d [E|[]]. inversion E; subst. reflexivity. }
  assert (B : Exists (fun d => local_mount d = None) [no_local_mount]).
  { now constructor. }
  split; [exact HP|]. split; [exact B|].
  exact (bad_partition_stops_exports cfg_bad_partition same_path
           only_partition sed_literal "c-compute-0"
           {| InstanceDef.network_storage := [no_local_mount] |}
           _ _ fresh_node eq_refl HP eq_refl B).
Defined.

Lemma every_mount_has_its_line_witness :
  prepare_network_mounts cfg_sample same_path only_partition
    (hostname cfg_sample) (instance_type cfg_sample)
  = inr (locality cfg_sample sample_catalog)
  /\ etc_fstab (snd (setup_network_storage cfg_sample same_path
                       only_partition fresh_node))
     = (etc_fstab fresh_node ++ nl
        ++ lines_text
             (map (entry_of same_path)
                (PyDict.items
                   (global_mounts
                      (snd (setup_network_storage cfg_sample same_path
                              only_partition fresh_node))))))%string.
Proof.
  split; [reflexivity|].
  exact (proj1 (every_mount_has_its_line cfg_sample same_path only_partition
                  _ _ fresh_node eq_refl)).
Defined.

Lemma mounts_left_for_waiting_witness :
  resolved_mounts cfg_sample same_path only_partition
    (hostname cfg_sample) (instance_type cfg_sample) = inr sample_catalog
  /\ instance_type cfg_sample = "controller"
  /\ PyDict.get "/home"
       (global_mounts (snd (setup_network_storage cfg_sample same_path
                              only_partition fresh_node))) = None.
Proof.
  split; [reflexivity|]. split; [reflexivity|].
  destruct (PyDict.get "/home"
              (global_mounts (snd (setup_network_storage cfg_sample same_path
                                     only_partition fresh_node))))
    as [m|] eqn:G; [|reflexivity].
  apply (proj1 (mounts_left_for_waiting cfg_sample same_path only_partition
                  sample_catalog fresh_node eq_refl) eq_refl) in G.
  destruct G as [G N]. injection G as <-. exfalso. now apply N.
Defined.

(** An NFS record that already asks for _netdev. *)
Definition scratch_mount : Mount := {|
  server_ip := "nfs1";
  remote_mount := PStr "/export/scratch";
  local_mount := Some (PStr "/scratch");
  fs_type := "nfs";
  mount_options := Some "defaults,_netdev,soft"
|}.

Lemma options_written_verbatim_witness :
  mount_options scratch_mount = Some "defaults,_netdev,soft"
  /\ "defaults,_netdev,soft" <> ""
  /\ contains "_netdev" (split "," "defaults,_netdev,soft") = true
  /\ join "," (entry_options scratch_mount) = "defaults,_netdev,soft".
Proof.
  assert (N : "defaults,_netdev,soft" <> "") by discriminate.
  split; [reflexivity|]. split; [exact N|]. split; [reflexivity|].
  apply (options_written_verbatim scratch_mount "defaults,_netdev,soft"
           eq_refl N eq_refl).
  discriminate.
Defined.

Lemma secondary_disk_line_closed_witness :
  prepare_network_mounts cfg_sample same_path only_partition
    (hostname cfg_sample) (instance_type cfg_sample)
  = inr (locality cfg_sample sample_catalog)
  /\ fst (controller_tables cfg_sample same_path only_partition true
            fresh_node) = inr tt.
Proof.
  split; [reflexivity|].
  exact (proj1 (secondary_disk_line_closed cfg_sample same_path
                  only_partition _ _ fresh_node eq_refl)).
Defined.

Lemma disk_formatted_before_config_error_witness :
  role_network_storage cfg_no_local_mount only_partition
    (hostname cfg_no_local_mount) (instance_type cfg_no_local_mount) = inr []
  /\ (Exists (fun d => local_mount d = None)
        (network_storage cfg_no_local_mount)
      \/ Exists (fun d => local_mount d = None) [])
  /\ fst (controller_tables cfg_no_local_mount same_path only_partition true
            fresh_node) = inl (KeyError "local_mount").
Proof.
  assert (B : Exists (fun d => local_mount d = None)
                (network_storage cfg_no_local_mount)
              \/ Exists (fun d => local_mount d = None) []).
  { left. apply Exists_cons_tl, Exists_cons_hd. reflexivity. }
  split; [reflexivity|]. split; [exact B|].
  exact (proj1 (disk_formatted_before_config_error cfg_no_local_mount
                  same_path only_partition [] fresh_node eq_refl B)).
Defined.

(** One zonal partition of n1-standard-4 machines, hyperthreads off. *)
Definition sample_part : Machines.Part := {|
  Machines.instance_template := None;
  Machines.machine_type := Some "n1-standard-4";
  Machines.gpu_count := None;
  Machines.gpu_type := None;
  Machines.regional_capacity := false;
  Machines.region := "us-central1";
  Machines.zone := "us-central1-a";
  Machines.image_hyperthreads := false
|}.

Definition n1_standard_4 : Machines.MachineType :=
  {| Machines.guestCpus := 4; Machines.memoryMb := 15360 |}.

Definition sample_api (zone name : string) : option Machines.MachineType :=
  Some n1_standard_4.

Definition no_regional_answer (filter : string)
  : option (PyDict.dict string (option (list Machines.MachineType))) := None.

Lemma machines_for_every_partition_witness :
  PyDict.wf [("c-compute-0", sample_part)]
  /\ Machines.expand_machine_type sample_api no_regional_answer
       [("c-compute-0", sample_part)]
     = inr [("c-compute-0",
             {| Machines.cpus := 2%Z; Machines.memory := 14510%Z |})]
  /\ PyDict.keys [("c-compute-0",
                   {| Machines.cpus := 2%Z; Machines.memory := 14510%Z |})]
     = PyDict.keys [("c-compute-0", sample_part)].
Proof.
  assert (W : PyDict.wf [("c-compute-0", sample_part)]).
  { repeat constructor. intros []. }
  split; [exact W|]. split; [reflexivity|].
  exact (proj1 (Machines.machines_for_every_partition sample_api
                  no_regional_answer [("c-compute-0", sample_part)] _
                  W eq_refl)).
Defined.


Lemma regional_lookup_first_zone_witness :
  Forall
    (fun kv => Machines.substring_in "us-central1" (fst kv) = false
               \/ snd kv = None)
    [("zones/europe-west1-b", Some [n1_standard_4]);
     ("zones/us-central1-a", None)]
  /\ Machines.substring_in "us-central1" "zones/us-central1-b" = true
  /\ Machines.first_zone_type "us-central1"
       ([("zones/europe-west1-b", Some [n1_standard_4]);
         ("zones/us-central1-a", None)]
        ++ ("zones/us-central1-b", Some [n1_standard_4])
           :: [("zones/us-central1-c", Some [])])
     = inr (Some n1_standard_4).
Proof.
  assert (F : Forall
                (fun kv => Machines.substring_in "us-central1" (fst kv) = false
                           \/ snd kv = None)
                [("zones/europe-west1-b", Some [n1_standard_4]);
                 ("zones/us-central1-a", None)]).
  { constructor; [left; reflexivity|].
    constructor; [right; reflexivity|constructor]. }
  split; [exact F|]. split; [reflexivity|].
  exact (Machines.regional_lookup_first_zone "us-central1"
           "zones/us-central1-b" _ [("zones/us-central1-c", Some [])]
           [n1_standard_4] F eq_refl).
Defined.

Lemma memory_held_back_witness :
  (0 <= Machines.memoryMb n1_standard_4)%Z
  /\ Machines.memory (Machines.sized sample_part n1_standard_4)
     = (Machines.memoryMb n1_standard_4 - 400
        - 30 * (Machines.memoryMb n1_standard_4 / 1024))%Z.
Proof.
  assert (P : (0 <= Machines.memoryMb n1_standard_4)%Z) by discriminate.
  split; [exact P|].
  exact (proj1 (Machines.memory_held_back sample_part n1_standard_4 P)).
Defined.

Lemma cpus_halved_witness :
  (0 <= Machines.guestCpus n1_standard_4)%Z
  /\ Machines.image_hyperthreads sample_part = false
  /\ (2 * Machines.cpus (Machines.sized sample_part n1_standard_4)
      <= Machines.guestCpus n1_standard_4)%Z.
Proof.
  assert (P : (0 <= Machines.guestCpus n1_standard_4)%Z) by discriminate.
  split; [exact P|]. split; [reflexivity|].
  exact (proj1 (proj1 (proj2 (Machines.cpus_halved sample_part n1_standard_4
                                P) eq_refl))).
Defined.
